(** * embedstore/data: pages, metainfo, freelist and pager

    A shallow embedding of [data/data.go] (package [data]) and the
    properties of its page buffer, its two control records and the
    flush/recovery cycle of the pager.

    Conventions.
    - [PageNum] is Go's [int64], [int] is taken to be 64 bits wide (the
      64-bit targets of the Go toolchain).  Both are carried as [Z]; every
      conversion and every arithmetic operation that can leave the range
      has its wrap-around written out ([to_int64], [to_uint64],
      [to_uint32]).
    - A [[]byte] is a [list byte]; indices and lengths of slices are [nat]
      (a slice lives in memory, so its length never leaves [int]), and
      [len] turns them into the [int] the code compares.
    - A method with a pointer receiver takes the receiver's value and
      returns the new one. *)

From Stdlib Require Import ZArith Lia Bool.
From Stdlib Require Import Strings.Byte Strings.String.
From stdpp Require Import base list.

Local Open Scope Z_scope.

(** ** Machine integers *)

Module Int.

Definition min_int64 : Z := - 2 ^ 63.
Definition max_int64 : Z := 2 ^ 63 - 1.

(** [x] is a value of Go's [int64]. *)
Definition in_int64 (x : Z) : Prop := min_int64 <= x <= max_int64.

(** Conversion to [uint64], [uint32]: reduction modulo the width. *)
Definition to_uint64 (x : Z) : Z := x mod 2 ^ 64.
Definition to_uint32 (x : Z) : Z := x mod 2 ^ 32.

(** Conversion to [int64] (and the result of [int64] arithmetic):
    two's complement wrap-around. *)
Definition to_int64 (x : Z) : Z := (x + 2 ^ 63) mod 2 ^ 64 - 2 ^ 63.

(** [byte(x)]: the low eight bits. *)
Definition to_byte (x : Z) : byte :=
  match Byte.of_N (Z.to_N (x mod 256)) with
  | Some b => b
  | None => x00
  end.

(** [uint64(b)] for a byte [b]. *)
Definition of_byte (b : byte) : Z := Z.of_N (Byte.to_N b).

(** [len(s)] as an [int]. *)
Definition len {A} (s : list A) : Z := Z.of_nat (length s).

End Int.
Import Int.

(** ** encoding/binary, LittleEndian

    The four functions of Go's standard library the package calls.  Each
    starts with a bounds check ([_ = b[7]], [_ = b[3]]) that panics on a
    short slice; every call site below passes a slice of exactly the
    width, so the check never fires and the model leaves it out: a store
    out of range changes nothing, a load out of range reads zero. *)

Module LittleEndian.

Definition at_ (b : list byte) (i : nat) : Z := of_byte (default x00 (b !! i)).

Definition PutUint64 (b : list byte) (v : Z) : list byte :=
  let b := <[0%nat := to_byte v]> b in
  let b := <[1%nat := to_byte (Z.shiftr v 8)]> b in
  let b := <[2%nat := to_byte (Z.shiftr v 16)]> b in
  let b := <[3%nat := to_byte (Z.shiftr v 24)]> b in
  let b := <[4%nat := to_byte (Z.shiftr v 32)]> b in
  let b := <[5%nat := to_byte (Z.shiftr v 40)]> b in
  let b := <[6%nat := to_byte (Z.shiftr v 48)]> b in
  <[7%nat := to_byte (Z.shiftr v 56)]> b.

Definition PutUint32 (b : list byte) (v : Z) : list byte :=
  let b := <[0%nat := to_byte v]> b in
  let b := <[1%nat := to_byte (Z.shiftr v 8)]> b in
  let b := <[2%nat := to_byte (Z.shiftr v 16)]> b in
  <[3%nat := to_byte (Z.shiftr v 24)]> b.

Definition Uint64 (b : list byte) : Z :=
  Z.lor (Z.lor (Z.lor (Z.lor (Z.lor (Z.lor (Z.lor
    (at_ b 0)
    (Z.shiftl (at_ b 1) 8))
    (Z.shiftl (at_ b 2) 16))
    (Z.shiftl (at_ b 3) 24))
    (Z.shiftl (at_ b 4) 32))
    (Z.shiftl (at_ b 5) 40))
    (Z.shiftl (at_ b 6) 48))
    (Z.shiftl (at_ b 7) 56).

Definition Uint32 (b : list byte) : Z :=
  Z.lor (Z.lor (Z.lor
    (at_ b 0)
    (Z.shiftl (at_ b 1) 8))
    (Z.shiftl (at_ b 2) 16))
    (Z.shiftl (at_ b 3) 24).

End LittleEndian.

(** ** Slices

    [make([]byte, n)], the built-in [copy], a slice expression [b[lo:hi]]
    read as a value, and a store through the slice [b[lo:hi]], which
    shares [b]'s array: the bytes of [b] outside the window stay.  Every
    slice expression of the package stands behind a length check or on a
    buffer made to measure, so Go's panic on a bound out of range cannot
    happen; [slice] gives the shorter list there. *)

Definition make_bytes (n : nat) : list byte := replicate n x00.

Fixpoint copy (dst src : list byte) : list byte :=
  match dst, src with
  | _ :: dst', s :: src' => s :: copy dst' src'
  | _, _ => dst
  end.

Definition slice (b : list byte) (lo hi : nat) : list byte :=
  take (hi - lo) (drop lo b).

Definition through (b : list byte) (lo hi : nat)
    (f : list byte -> list byte) : list byte :=
  take lo b ++ f (slice b lo hi) ++ drop hi b.

(** ** Errors

    [ErrWrongBytes] is the package's sentinel; [ErrNegativeOffset] and
    [EOF] are the two failures of positioned I/O on an ideal file;
    [Errorf msg args e] is [fmt.Errorf(msg + ": %w", args..., e)]. *)

Inductive error : Type :=
  | ErrWrongBytes
  | ErrNegativeOffset
  | EOF
  | Errorf (msg : string) (args : list Z) (cause : error).

(** [errors.Is(e, ErrWrongBytes)]: follow the [%w] chain. *)
Fixpoint Is_ErrWrongBytes (e : error) : bool :=
  match e with
  | ErrWrongBytes => true
  | Errorf _ _ cause => Is_ErrWrongBytes cause
  | _ => false
  end.

(** ** Constants and page numbers *)

Definition PageNum := Z.

Definition DefaultMetaPage : PageNum := 0.
Definition DefaultFlistPage : PageNum := DefaultMetaPage + 1.
Definition BeginFreeBlocks : PageNum := DefaultFlistPage + 1.

(** ** Page *)

Record Page : Type := mkPage { Num : PageNum; Data : list byte }.

(** [NewPage]: [make] panics on a negative size ([None]). *)
Definition NewPage (num : PageNum) (size : Z) : option Page :=
  if size <? 0 then None
  else Some {| Num := num; Data := make_bytes (Z.to_nat size) |}.

(** [WithNum] retags the receiver and returns a second page on the same
    buffer: (receiver afterwards, result). *)
Definition WithNum (pg : Page) (num : PageNum) : Page * Page :=
  ({| Num := num; Data := Data pg |}, {| Num := num; Data := Data pg |}).

Definition Page_Write (pg : Page) (b : list byte) : Page :=
  {| Num := Num pg; Data := copy (Data pg) b |}.

(** ** Metainfo

    The field [Freelist] of the source is [Freelist_page] here; the name
    [Freelist] is the record of the allocator. *)

Record Metainfo : Type := mkMetainfo { Freelist_page : PageNum }.

Definition NewMetainfo : Metainfo := {| Freelist_page := DefaultFlistPage |}.

Module Meta.

Definition Serialize (meta : Metainfo) : list byte :=
  let b := make_bytes 8 in
  through b 0 8 (fun s => LittleEndian.PutUint64 s (to_uint64 (Freelist_page meta))).

(** The receiver after the call and the returned error. *)
Definition Deserialize (meta : Metainfo) (b : list byte)
    : Metainfo * option error :=
  if len b <? 8 then
    (meta, Some (Errorf "meta/deserialize" [] ErrWrongBytes))
  else
    ({| Freelist_page := to_int64 (LittleEndian.Uint64 (slice b 0 8)) |}, None).

Definition Equal (meta other : Metainfo) : bool :=
  Freelist_page meta =? Freelist_page other.

End Meta.

(** ** Freelist *)

Record Freelist : Type := mkFreelist { Max : PageNum; Released : list PageNum }.

Definition NewFreelist : Freelist :=
  {| Max := BeginFreeBlocks; Released := [] |}.

Module Flist.

(** The returned page number and the receiver after the call. *)
Definition Next (flist : Freelist) : PageNum * Freelist :=
  if len (Released flist) =? 0 then
    let curr := Max flist in
    (curr, {| Max := to_int64 (Max flist + 1); Released := Released flist |})
  else
    let num := default 0 (Released flist !! (length (Released flist) - 1)%nat) in
    (num, {| Max := Max flist;
             Released := take (length (Released flist) - 1) (Released flist) |}).

Definition Release (flist : Freelist) (num : PageNum) : Freelist :=
  if num <=? BeginFreeBlocks then flist
  else {| Max := Max flist; Released := Released flist ++ [num] |}.

(** One turn of the loop of [Serialize]: entry [i], value [num]. *)
Definition put_entry (b : list byte) (i : nat) (num : PageNum) : list byte :=
  through b (12 + 8 * i) (12 + 8 * i + 8)
    (fun s => LittleEndian.PutUint64 s (to_uint64 num)).

Definition Serialize (flist : Freelist) : list byte :=
  let b := make_bytes (8 + 4 + 8 * length (Released flist)) in
  let b := through b 0 8 (fun s => LittleEndian.PutUint64 s (to_uint64 (Max flist))) in
  let b := through b 8 12
             (fun s => LittleEndian.PutUint32 s (to_uint32 (len (Released flist)))) in
  foldl (fun b '(i, num) => put_entry b i num) b
        (zip (seq 0 (length (Released flist))) (Released flist)).

(** One turn of the loop of [Deserialize]: [Released[i] = ...]. *)
Definition get_entry (b : list byte) (released : list PageNum) (i : nat)
    : list PageNum :=
  <[i := to_int64 (LittleEndian.Uint64 (slice b (12 + 8 * i) (12 + 8 * i + 8)))]>
    released.

(** The receiver after the call and the returned error.  The two fields
    are assigned before the second length check, so the receiver a failed
    call leaves behind is the one built so far. *)
Definition Deserialize (flist : Freelist) (b : list byte)
    : Freelist * option error :=
  if len b <? 8 + 4 then
    (flist, Some (Errorf "freelist/deserialize: decode head" [] ErrWrongBytes))
  else
    let max := to_int64 (LittleEndian.Uint64 (slice b 0 8)) in
    let released :=
      replicate (Z.to_nat (LittleEndian.Uint32 (slice b 8 12))) (0 : PageNum) in
    if len b <? (8 + 4) + 8 * len released then
      ({| Max := max; Released := released |},
       Some (Errorf "freelist/deserialize: decode body" [] ErrWrongBytes))
    else
      ({| Max := max;
          Released := foldl (get_entry b) released (seq 0 (length released)) |},
       None).

Definition Equal (flist other : Freelist) : bool :=
  if negb (Max flist =? Max other)
     || negb (len (Released flist) =? len (Released other))
  then false
  else forallb (fun x => existsb (fun y => x =? y) (Released other))
               (Released flist).

End Flist.

(** ** The file

    The host's random-access file, taken as ideal: a byte sequence of any
    length.  [WriteAt] and [ReadAt] follow [os.File]: a negative offset is
    refused, an empty buffer transfers nothing (a write of no bytes does
    not extend the file), a write past the end fills the gap with zero
    bytes, and a read that meets the end of the file before the buffer is
    full fails with [EOF]. *)

Definition File := list byte.

Definition WriteAt (f : File) (b : list byte) (off : Z) : File + error :=
  if off <? 0 then inr ErrNegativeOffset
  else if len b =? 0 then inl f
  else
    let o := Z.to_nat off in
    inl (take o f ++ replicate (o - length f) x00 ++ b
           ++ drop (o + length b) f).

Definition ReadAt (f : File) (n : nat) (off : Z) : list byte + error :=
  if off <? 0 then inr ErrNegativeOffset
  else if Z.of_nat n =? 0 then inl []
  else
    let got := take n (drop (Z.to_nat off) f) in
    if len got <? Z.of_nat n then inr EOF else inl got.

(** ** Pager *)

Record Pager : Type := mkPager {
  path : string;
  f : File;
  psize : Z;
  meta : Metainfo;
  flist : Freelist
}.

Definition set_f (pgr : Pager) (f' : File) : Pager :=
  {| path := path pgr; f := f'; psize := psize pgr;
     meta := meta pgr; flist := flist pgr |}.

Definition set_meta (pgr : Pager) (m : Metainfo) : Pager :=
  {| path := path pgr; f := f pgr; psize := psize pgr;
     meta := m; flist := flist pgr |}.

Definition set_flist (pgr : Pager) (fl : Freelist) : Pager :=
  {| path := path pgr; f := f pgr; psize := psize pgr;
     meta := meta pgr; flist := fl |}.

(** A method of [*Pager] runs on the pager and ends in one of three ways:
    it returns a value, it returns an error, or it panics.  In the first
    two the pager it leaves behind is part of the outcome. *)

Inductive outcome (A : Type) : Type :=
  | Ok (a : A) (pgr : Pager)
  | Fail (e : error) (pgr : Pager)
  | Panic.
Arguments Ok {A} a pgr.
Arguments Fail {A} e pgr.
Arguments Panic {A}.

Definition M (A : Type) : Type := Pager -> outcome A.

Definition ret {A} (a : A) : M A := fun pgr => Ok a pgr.

Definition bind {A B} (m : M A) (k : A -> M B) : M B :=
  fun pgr =>
    match m pgr with
    | Ok a pgr' => k a pgr'
    | Fail e pgr' => Fail e pgr'
    | Panic => Panic
    end.

(** The receiver, as the method body reads its fields. *)
Definition get : M Pager := fun pgr => Ok pgr pgr.

(** [if err != nil { return fmt.Errorf(msg + ": %w", args..., err) }] *)
Definition wrap {A} (msg : string) (args : list Z) (m : M A) : M A :=
  fun pgr =>
    match m pgr with
    | Fail e pgr' => Fail (Errorf msg args e) pgr'
    | o => o
    end.

Notation "x <- m ;; k" := (bind m (fun x => k))
  (at level 100, m at next level, right associativity).
Notation "m ;;; k" := (bind m (fun _ => k))
  (at level 100, right associativity).

Module Pgr.

(** [pgr.f.WriteAt(b, off)], [pgr.f.ReadAt(buf, off)] with [len(buf) = n]. *)
Definition f_WriteAt (b : list byte) (off : Z) : M unit :=
  fun pgr =>
    match WriteAt (f pgr) b off with
    | inl f' => Ok tt (set_f pgr f')
    | inr e => Fail e pgr
    end.

Definition f_ReadAt (n : nat) (off : Z) : M (list byte) :=
  fun pgr =>
    match ReadAt (f pgr) n off with
    | inl d => Ok d pgr
    | inr e => Fail e pgr
    end.

Definition Alloc : M Page :=
  fun pgr =>
    match NewPage 0 (psize pgr) with
    | Some pg => Ok pg pgr
    | None => Panic
    end.

Definition Write (pg : Page) : M unit :=
  pgr <- get ;;
  let off := to_int64 (Num pg * psize pgr) in
  wrap "pager/write" [Num pg; len (Data pg)] (f_WriteAt (Data pg) off).

Definition Read (num : PageNum) : M Page :=
  pg <- Alloc ;;
  let pg := snd (WithNum pg num) in
  pgr <- get ;;
  let off := to_int64 (num * psize pgr) in
  d <- wrap "pager/read" [Num pg] (f_ReadAt (length (Data pg)) off) ;;
  ret {| Num := Num pg; Data := copy (Data pg) d |}.

Definition Flush : M unit :=
  pg <- Alloc ;;
  let metapg := snd (WithNum pg DefaultMetaPage) in
  pgr <- get ;;
  let metab := Meta.Serialize (meta pgr) in
  let metapg := {| Num := Num metapg; Data := copy (Data metapg) metab |} in
  wrap "pager: flush metainfo" [] (Write metapg) ;;;
  pg <- Alloc ;;
  pgr <- get ;;
  let flistpg := snd (WithNum pg (Freelist_page (meta pgr))) in
  let flistb := Flist.Serialize (flist pgr) in
  let flistpg := {| Num := Num flistpg; Data := copy (Data flistpg) flistb |} in
  wrap "pager: flush freelist" [] (Write flistpg).

(** [pgr.meta.Deserialize(b)], [pgr.flist.Deserialize(b)]: the receiver is
    the pager's own record, so it is updated whether or not the call
    fails. *)
Definition meta_Deserialize (b : list byte) : M unit :=
  fun pgr =>
    match Meta.Deserialize (meta pgr) b with
    | (m, None) => Ok tt (set_meta pgr m)
    | (m, Some e) => Fail e (set_meta pgr m)
    end.

Definition flist_Deserialize (b : list byte) : M unit :=
  fun pgr =>
    match Flist.Deserialize (flist pgr) b with
    | (fl, None) => Ok tt (set_flist pgr fl)
    | (fl, Some e) => Fail e (set_flist pgr fl)
    end.

Definition Recovery : M unit :=
  metapg <- wrap "pager: recover metainfo" [] (Read DefaultMetaPage) ;;
  wrap "pager: recover metainfo" [] (meta_Deserialize (Data metapg)) ;;;
  pgr <- get ;;
  flistpg <- wrap "pager: recover freelist" []
               (Read (Freelist_page (meta pgr))) ;;
  wrap "pager: recover freelist" [] (flist_Deserialize (Data flistpg)).

(** [NewPager] on a path whose entry is [disk] ([None]: no such entry;
    [os.OpenFile] with [O_CREATE] then makes an empty file).  The two
    failures of the host left out, [os.Stat] and [os.OpenFile], are not
    the pager's. A failed [Recovery] or [Flush] closes the file and
    returns the error. *)
Definition NewPager (p : string) (disk : option File) (size : Z)
    : outcome unit :=
  let exists_ := match disk with Some _ => true | None => false end in
  let pgr := {| path := p; f := default [] disk; psize := size;
                meta := NewMetainfo; flist := NewFreelist |} in
  wrap "pager/new" [] (if exists_ then Recovery else Flush) pgr.

End Pgr.

(** * Vocabulary of the statements

    The wire format of the records, well-formed records, sequences of
    calls, the file after a flush, and the concrete states the examples
    and counterexamples run on. *)

(** The eight (four) bytes of a word on the wire. *)
Definition le64 (v : Z) : list byte :=
  [to_byte v; to_byte (Z.shiftr v 8); to_byte (Z.shiftr v 16);
   to_byte (Z.shiftr v 24); to_byte (Z.shiftr v 32); to_byte (Z.shiftr v 40);
   to_byte (Z.shiftr v 48); to_byte (Z.shiftr v 56)].

Definition le32 (v : Z) : list byte :=
  [to_byte v; to_byte (Z.shiftr v 8); to_byte (Z.shiftr v 16);
   to_byte (Z.shiftr v 24)].

(** The entries of a released list on the wire. *)
Definition le64s (l : list PageNum) : list byte :=
  flat_map (fun num => le64 (to_uint64 num)) l.

(** Entry [i] of a buffer, as [Deserialize] reads it. *)
Definition entry (b : list byte) (i : nat) : PageNum :=
  to_int64 (LittleEndian.Uint64 (slice b (12 + 8 * i) (12 + 8 * i + 8))).

(** The two errors of [Freelist.Deserialize]. *)
Definition head_error : error :=
  Errorf "freelist/deserialize: decode head" [] ErrWrongBytes.
Definition body_error : error :=
  Errorf "freelist/deserialize: decode body" [] ErrWrongBytes.

(** Well-formed records: every page number is an [int64]. *)
Definition wf_Metainfo (m : Metainfo) : Prop := in_int64 (Freelist_page m).

Definition wf_Freelist (fl : Freelist) : Prop :=
  in_int64 (Max fl) /\ Forall in_int64 (Released fl).

(** The call returned an error that is [ErrWrongBytes] underneath. *)
Definition wrong_bytes (r : option error) : Prop :=
  exists e, r = Some e /\ Is_ErrWrongBytes e = true.

(** Twelve bytes that announce one entry and carry none. *)
Definition truncated : list byte :=
  [x07; x00; x00; x00; x00; x00; x00; x00; x01; x00; x00; x00].

(** A Freelist with [2 ^ 32] pages released, 3, 4, 5, ... in this order:
    the state after [2 ^ 32 + 1] calls of [Next] and the release of all
    pages handed out but the first. *)
Definition many : nat := Z.to_nat 4294967296.

Definition full_freelist : Freelist :=
  {| Max := 4294967299; Released := Z.of_nat <$> seq 3 many |}.

(** [n] calls of [Next] in a row: the numbers handed out, in order, and
    the Freelist they leave. *)
Fixpoint Next_times (n : nat) (fl : Freelist) : list PageNum * Freelist :=
  match n with
  | O => ([], fl)
  | S n' =>
      let '(num, fl1) := Flist.Next fl in
      let '(nums, fl2) := Next_times n' fl1 in
      (num :: nums, fl2)
  end.

(** A sequence of calls on a Freelist. *)
Inductive call : Type :=
  | CallNext
  | CallRelease (num : PageNum).

Definition do_call (fl : Freelist) (c : call) : Freelist :=
  match c with
  | CallNext => snd (Flist.Next fl)
  | CallRelease num => Flist.Release fl num
  end.

Definition run (calls : list call) : Freelist := foldl do_call NewFreelist calls.

(** Everything in the released list is above the boundary. *)
Definition above_boundary (fl : Freelist) : Prop :=
  Forall (fun num => BeginFreeBlocks < num) (Released fl).

(** The file after a write of [b] at offset [o]. *)
Definition overlay (f : File) (o : nat) (b : list byte) : File :=
  take o f ++ replicate (o - length f) x00 ++ b ++ drop (o + length b) f.

(** A record copied into a fresh page: the record, then zeros. *)
Definition page_of (ps : nat) (rec : list byte) : list byte :=
  copy (make_bytes ps) rec.

(** The file a flush leaves: the page of the Metainfo at offset 0, then
    the page of the Freelist at the offset of the page the Metainfo
    names. *)
Definition flushed (pgr : Pager) : File :=
  let ps := Z.to_nat (psize pgr) in
  overlay
    (overlay (f pgr) 0 (page_of ps (Meta.Serialize (meta pgr))))
    (Z.to_nat (Freelist_page (meta pgr) * psize pgr))
    (page_of ps (Flist.Serialize (flist pgr))).

(** What [NewPager] builds on an existing file before it calls
    [Recovery]: the file and the page size, and fresh records. *)
Definition reopen (pgr : Pager) : Pager :=
  {| path := path pgr; f := f pgr; psize := psize pgr;
     meta := NewMetainfo; flist := NewFreelist |}.

(** A store of 4096-byte pages, not yet written, whose Metainfo names
    page [2 ^ 52] for the Freelist, and the same store with the page of
    a fresh Freelist at offset 0. *)
Definition wrapping_pager : Pager :=
  {| path := "store"; f := []; psize := 4096;
     meta := {| Freelist_page := 4503599627370496 |};
     flist := NewFreelist |}.

Definition overwritten : Pager :=
  set_f wrapping_pager (page_of 4096 (Flist.Serialize NewFreelist)).

(** A store of 32-byte pages with its Freelist at page 3. *)
Definition small_pager : Pager :=
  {| path := "store"; f := []; psize := 32;
     meta := {| Freelist_page := 3 |};
     flist := {| Max := 9; Released := [4; 5] |} |}.

(** The steps of [TestPager], with pages of 16 bytes, three data pages
    and payloads of two bytes. *)

(** [pg := pgr.Alloc().WithNum(pgr.Freelist().Next()); pg.Write(payload);
    pgr.Write(pg)] *)
Definition write_next (payload : list byte) : M unit :=
  pg0 <- Pgr.Alloc ;;
  fun pgr =>
    let '(num, fl) := Flist.Next (flist pgr) in
    let pg := Page_Write (snd (WithNum pg0 num)) payload in
    Pgr.Write pg (set_flist pgr fl).

Definition create_and_write : outcome unit :=
  match Pgr.NewPager "test_data" None 16 with
  | Ok _ pgr =>
      (write_next [x64; x31] ;;; write_next [x64; x32] ;;;
       write_next [x64; x33] ;;; Pgr.Flush) pgr
  | o => o
  end.

Definition recovery_and_read : outcome (list (list byte)) :=
  match create_and_write with
  | Ok _ closed =>
      match Pgr.NewPager "test_data" (Some (f closed)) 16 with
      | Ok _ pgr =>
          (pg2 <- Pgr.Read 2 ;; pg3 <- Pgr.Read 3 ;; pg4 <- Pgr.Read 4 ;;
           ret [take 2 (Data pg2); take 2 (Data pg3); take 2 (Data pg4)]) pgr
      | Fail e pgr => Fail e pgr
      | Panic => Panic
      end
  | Fail e pgr => Fail e pgr
  | Panic => Panic
  end.

(** ** Vocabulary of the further properties *)

(** The Freelist a buffer decodes to. *)
Definition decoded (b : list byte) : Freelist :=
  {| Max := to_int64 (LittleEndian.Uint64 (slice b 0 8));
     Released :=
       entry b <$> seq 0 (Z.to_nat (LittleEndian.Uint32 (slice b 8 12))) |}.

(** A buffer of three entries with two bytes behind them. *)
Definition three_entries : list byte :=
  [x09; x00; x00; x00; x00; x00; x00; x00;  x03; x00; x00; x00;
   x04; x00; x00; x00; x00; x00; x00; x00;
   xff; xff; xff; xff; xff; xff; xff; xff;
   x07; x00; x00; x00; x00; x00; x00; x80;
   xaa; xbb].

(** A store of two pages of 4 bytes, and a store whose Metainfo names a
    negative page for the Freelist. *)
Definition two_pages : Pager :=
  {| path := "store"; f := replicate 4 x01 ++ replicate 4 x02; psize := 4;
     meta := NewMetainfo; flist := NewFreelist |}.

Definition negative_pager : Pager :=
  {| path := "store"; f := []; psize := 32;
     meta := {| Freelist_page := -1 |}; flist := NewFreelist |}.


(** * Properties *)

(** ** Integers and bytes *)

Lemma of_byte_range (b : byte) : 0 <= of_byte b < 256.
Proof.
  unfold of_byte. pose proof (Byte.to_N_bounded b). lia.
Qed.

Lemma of_to_byte (x : Z) : of_byte (to_byte x) = x mod 256.
Proof.
  unfold of_byte, to_byte.
  assert (Hr : 0 <= x mod 256 < 256) by (apply Z.mod_pos_bound; lia).
  destruct (Byte.of_N (Z.to_N (x mod 256))) as [b|] eqn:E.
  - apply Byte.to_of_N in E. rewrite E. lia.
  - apply Byte.of_N_None_iff in E. lia.
Qed.

Lemma to_int64_id (x : Z) : in_int64 x -> to_int64 x = x.
Proof.
  unfold in_int64, min_int64, max_int64, to_int64. intros H.
  rewrite Z.mod_small; lia.
Qed.

Lemma to_int64_range (x : Z) : in_int64 (to_int64 x).
Proof.
  unfold in_int64, min_int64, max_int64, to_int64.
  pose proof (Z.mod_pos_bound (x + 2 ^ 63) (2 ^ 64)). lia.
Qed.

Lemma to_int64_uint64 (x : Z) : in_int64 x -> to_int64 (to_uint64 x) = x.
Proof.
  unfold in_int64, min_int64, max_int64, to_int64, to_uint64. intros H.
  rewrite Zplus_mod_idemp_l. rewrite Z.mod_small; lia.
Qed.

(** The bits of one byte of [v], put back at its place. *)
Lemma testbit_byte_at (v k n : Z) :
  0 <= k -> 0 <= n ->
  Z.testbit (Z.shiftl (Z.shiftr v k mod 256) k) n
  = (k <=? n) && (n <? k + 8) && Z.testbit v n.
Proof.
  intros Hk Hn. rewrite Z.shiftl_spec by lia.
  destruct (Z.leb_spec k n) as [Hle|Hlt]; simpl.
  - change 256 with (2 ^ 8). rewrite Z.testbit_mod_pow2 by lia.
    rewrite Z.shiftr_spec by lia.
    replace (n - k + k) with n by lia.
    destruct (Z.ltb_spec (n - k) 8), (Z.ltb_spec n (k + 8)); simpl; trivial; lia.
  - apply Z.testbit_neg_r. lia.
Qed.

Ltac split_bit n :=
  repeat match goal with
  | |- context [ (?a <=? n) ] => destruct (Z.leb_spec a n); try lia
  | |- context [ (n <? ?a) ] => destruct (Z.ltb_spec n a); try lia
  end.

Lemma lor_bytes64 (v : Z) :
  Z.lor (Z.lor (Z.lor (Z.lor (Z.lor (Z.lor (Z.lor
    (v mod 256)
    (Z.shiftl (Z.shiftr v 8 mod 256) 8))
    (Z.shiftl (Z.shiftr v 16 mod 256) 16))
    (Z.shiftl (Z.shiftr v 24 mod 256) 24))
    (Z.shiftl (Z.shiftr v 32 mod 256) 32))
    (Z.shiftl (Z.shiftr v 40 mod 256) 40))
    (Z.shiftl (Z.shiftr v 48 mod 256) 48))
    (Z.shiftl (Z.shiftr v 56 mod 256) 56)
  = v mod 2 ^ 64.
Proof.
  apply Z.bits_inj'. intros n Hn.
  rewrite <- (Z.shiftr_0_r v) at 1. rewrite <- (Z.shiftl_0_r (_ mod 256)).
  rewrite !Z.lor_spec, !testbit_byte_at, Z.testbit_mod_pow2 by lia.
  assert (Hc : n < 8 \/ 8 <= n < 16 \/ 16 <= n < 24 \/ 24 <= n < 32 \/
               32 <= n < 40 \/ 40 <= n < 48 \/ 48 <= n < 56 \/
               56 <= n < 64 \/ 64 <= n) by lia.
  simpl Z.add.
  destruct Hc as [H|[H|[H|[H|[H|[H|[H|[H|H]]]]]]]];
    split_bit n; simpl; rewrite ?orb_false_r; reflexivity.
Qed.

Lemma lor_bytes32 (v : Z) :
  Z.lor (Z.lor (Z.lor
    (v mod 256)
    (Z.shiftl (Z.shiftr v 8 mod 256) 8))
    (Z.shiftl (Z.shiftr v 16 mod 256) 16))
    (Z.shiftl (Z.shiftr v 24 mod 256) 24)
  = v mod 2 ^ 32.
Proof.
  apply Z.bits_inj'. intros n Hn.
  rewrite <- (Z.shiftr_0_r v) at 1. rewrite <- (Z.shiftl_0_r (_ mod 256)).
  rewrite !Z.lor_spec, !testbit_byte_at, Z.testbit_mod_pow2 by lia.
  assert (Hc : n < 8 \/ 8 <= n < 16 \/ 16 <= n < 24 \/ 24 <= n < 32 \/
               32 <= n) by lia.
  simpl Z.add.
  destruct Hc as [H|[H|[H|[H|H]]]];
    split_bit n; simpl; rewrite ?orb_false_r; reflexivity.
Qed.

(** ** Little-endian words *)

Lemma length_le64 (v : Z) : length (le64 v) = 8%nat.
Proof. reflexivity. Qed.

Lemma length_le32 (v : Z) : length (le32 v) = 4%nat.
Proof. reflexivity. Qed.

Lemma PutUint64_le64 (s : list byte) (v : Z) :
  length s = 8%nat -> LittleEndian.PutUint64 s v = le64 v.
Proof.
  intros H. do 9 (destruct s as [|? s]; try discriminate H). reflexivity.
Qed.

Lemma PutUint32_le32 (s : list byte) (v : Z) :
  length s = 4%nat -> LittleEndian.PutUint32 s v = le32 v.
Proof.
  intros H. do 5 (destruct s as [|? s]; try discriminate H). reflexivity.
Qed.

Lemma Uint64_le64 (v : Z) : LittleEndian.Uint64 (le64 v) = to_uint64 v.
Proof.
  unfold LittleEndian.Uint64, LittleEndian.at_, le64, to_uint64. simpl.
  rewrite !of_to_byte. apply lor_bytes64.
Qed.

Lemma Uint32_le32 (v : Z) : LittleEndian.Uint32 (le32 v) = to_uint32 v.
Proof.
  unfold LittleEndian.Uint32, LittleEndian.at_, le32, to_uint32. simpl.
  rewrite !of_to_byte. apply lor_bytes32.
Qed.

Lemma Uint32_range (b : list byte) : 0 <= LittleEndian.Uint32 b < 2 ^ 32.
Proof.
  unfold LittleEndian.Uint32, LittleEndian.at_.
  pose proof (of_byte_range (default x00 (b !! 0%nat))) as H0.
  pose proof (of_byte_range (default x00 (b !! 1%nat))) as H1.
  pose proof (of_byte_range (default x00 (b !! 2%nat))) as H2.
  pose proof (of_byte_range (default x00 (b !! 3%nat))) as H3.
  set (b0 := of_byte _) in *. set (b1 := of_byte _) in *.
  set (b2 := of_byte _) in *. set (b3 := of_byte _) in *.
  assert (Hb : forall x k, 0 <= x < 256 -> 0 <= k ->
                 forall n, k + 8 <= n -> Z.testbit (Z.shiftl x k) n = false).
  { intros x k Hx Hk n Hn. rewrite Z.shiftl_spec by lia.
    destruct (Z.eq_dec x 0) as [->|Hx0]; [apply Z.testbit_0_l|].
    apply Z.bits_above_log2; [lia|].
    assert (Z.log2 x < 8) by (apply Z.log2_lt_pow2; lia). lia. }
  split.
  - rewrite !Z.lor_nonneg, !Z.shiftl_nonneg. lia.
  - set (w := Z.lor _ _).
    assert (Hw : 0 <= w) by (unfold w; rewrite !Z.lor_nonneg, !Z.shiftl_nonneg; lia).
    destruct (Z.eq_dec w 0) as [->|Hw0]; [lia|].
    apply Z.log2_lt_pow2; [lia|].
    destruct (Z.lt_ge_cases (Z.log2 w) 32) as [|Hge]; [assumption|exfalso].
    assert (Ht : Z.testbit w (Z.log2 w) = true) by (apply Z.bit_log2; lia).
    unfold w in Ht at 1. rewrite !Z.lor_spec in Ht.
    rewrite <- (Z.shiftl_0_r b0) in Ht.
    rewrite !Hb in Ht by lia. discriminate Ht.
Qed.

(** ** Slices of a concatenation *)

Lemma slice_app (pre w post : list byte) (lo hi : nat) :
  lo = length pre -> hi = (lo + length w)%nat ->
  slice (pre ++ w ++ post) lo hi = w.
Proof.
  intros -> ->. unfold slice.
  rewrite drop_app_length. replace (_ + _ - _)%nat with (length w) by lia.
  apply take_app_length.
Qed.

Lemma slice_head (w post : list byte) (hi : nat) :
  hi = length w -> slice (w ++ post) 0 hi = w.
Proof.
  intros ->. apply (slice_app [] w post 0 (length w)); reflexivity.
Qed.

Lemma through_app (pre w post : list byte) (lo hi : nat)
    (g : list byte -> list byte) :
  lo = length pre -> hi = (lo + length w)%nat ->
  through (pre ++ w ++ post) lo hi g = pre ++ g w ++ post.
Proof.
  intros Hlo Hhi. unfold through. rewrite slice_app by assumption.
  subst lo hi. rewrite take_app_length. f_equal. f_equal.
  rewrite app_assoc. apply drop_app_length'. rewrite length_app. reflexivity.
Qed.

Lemma through_head (w post : list byte) (hi : nat)
    (g : list byte -> list byte) :
  hi = length w -> through (w ++ post) 0 hi g = g w ++ post.
Proof.
  intros ->. apply (through_app [] w post 0 (length w) g); reflexivity.
Qed.

Lemma copy_spec (dst src : list byte) :
  copy dst src = take (length dst) src ++ drop (length src) dst.
Proof.
  revert src. induction dst as [|d dst IH]; intros [|s src]; simpl; trivial.
  - f_equal. apply IH.
Qed.

Lemma length_copy (dst src : list byte) : length (copy dst src) = length dst.
Proof.
  rewrite copy_spec, length_app, length_take, length_drop. lia.
Qed.

(** ** The wire format of the two records *)

Lemma le64s_cons (x : PageNum) (l : list PageNum) :
  le64s (x :: l) = le64 (to_uint64 x) ++ le64s l.
Proof. reflexivity. Qed.

Lemma length_le64s (l : list PageNum) : length (le64s l) = (8 * length l)%nat.
Proof.
  induction l as [|x l IH]; simpl; trivial.
  rewrite IH. lia.
Qed.

Lemma Meta_Serialize_wire (m : Metainfo) :
  Meta.Serialize m = le64 (to_uint64 (Freelist_page m)).
Proof. reflexivity. Qed.

(** The loop of [Serialize], started at entry [k] on a buffer whose first
    [12 + 8 * k] bytes are written and whose rest is still zero. *)
Lemma Serialize_loop (l : list PageNum) (k : nat) (pre : list byte) :
  length pre = (12 + 8 * k)%nat ->
  foldl (fun b '(i, num) => Flist.put_entry b i num)
        (pre ++ make_bytes (8 * length l)) (zip (seq k (length l)) l)
  = pre ++ le64s l.
Proof.
  revert k pre. induction l as [|x l IH]; intros k pre Hpre.
  - reflexivity.
  - cbn [length seq zip zip_with foldl].
    replace (8 * S (length l))%nat with (8 + 8 * length l)%nat by lia.
    unfold make_bytes at 1. rewrite replicate_add.
    unfold Flist.put_entry at 2.
    rewrite through_app by (rewrite ?length_replicate; lia).
    rewrite PutUint64_le64 by apply length_replicate.
    rewrite app_assoc.
    change (replicate (8 * length l) x00) with (make_bytes (8 * length l)).
    rewrite (IH (S k)) by (rewrite length_app, length_le64; lia).
    rewrite <- app_assoc. reflexivity.
Qed.

Lemma Flist_Serialize_wire (fl : Freelist) :
  Flist.Serialize fl
  = le64 (to_uint64 (Max fl)) ++ le32 (to_uint32 (len (Released fl)))
      ++ le64s (Released fl).
Proof.
  unfold Flist.Serialize.
  replace (8 + 4 + 8 * length (Released fl))%nat
    with (8 + (4 + 8 * length (Released fl)))%nat by lia.
  unfold make_bytes at 1. rewrite !replicate_add.
  rewrite through_head by reflexivity.
  rewrite PutUint64_le64 by reflexivity.
  cbn [app].
  rewrite (through_app (le64 _) (replicate 4 x00) _ 8 12) by reflexivity.
  rewrite PutUint32_le32 by reflexivity.
  rewrite app_assoc.
  change (replicate (8 * length (Released fl)) x00)
    with (make_bytes (8 * length (Released fl))).
  rewrite (Serialize_loop _ 0) by reflexivity.
  rewrite <- app_assoc. reflexivity.
Qed.

Lemma length_Flist_Serialize (fl : Freelist) :
  length (Flist.Serialize fl) = (12 + 8 * length (Released fl))%nat.
Proof.
  rewrite Flist_Serialize_wire, !length_app, length_le64s. simpl. lia.
Qed.

Lemma get_entry_eq (b : list byte) (l : list PageNum) (i : nat) :
  Flist.get_entry b l i = <[i := entry b i]> l.
Proof. unfold Flist.get_entry, entry. reflexivity. Qed.

(** The loop of [Deserialize] fills the list from the left. *)
Lemma Deserialize_loop (b : list byte) (c k : nat) :
  (k <= c)%nat ->
  foldl (Flist.get_entry b) (replicate c 0) (seq 0 k)
  = (entry b <$> seq 0 k) ++ replicate (c - k) 0.
Proof.
  induction k as [|k IH]; intros Hk.
  - cbn [seq foldl fmap list_fmap app]. f_equal. lia.
  - rewrite seq_S, foldl_app, fmap_app, IH by lia.
    cbn [foldl Nat.add]. rewrite get_entry_eq.
    rewrite insert_app_r_alt by (rewrite length_fmap, length_seq; lia).
    rewrite length_fmap, length_seq, Nat.sub_diag.
    replace (c - k)%nat with (S (c - S k)) by lia.
    cbn [replicate insert list_insert fmap list_fmap].
    rewrite <- app_assoc. reflexivity.
Qed.

Lemma Deserialize_loop_full (b : list byte) (c : nat) :
  foldl (Flist.get_entry b) (replicate c 0) (seq 0 c) = entry b <$> seq 0 c.
Proof.
  rewrite Deserialize_loop by lia.
  rewrite Nat.sub_diag. apply app_nil_r.
Qed.

Lemma Flist_Deserialize_eq (recv : Freelist) (b : list byte) :
  Flist.Deserialize recv b =
    let c := Z.to_nat (LittleEndian.Uint32 (slice b 8 12)) in
    let max := to_int64 (LittleEndian.Uint64 (slice b 0 8)) in
    if len b <? 12 then (recv, Some head_error)
    else if len b <? 12 + 8 * LittleEndian.Uint32 (slice b 8 12) then
      ({| Max := max; Released := replicate c 0 |}, Some body_error)
    else ({| Max := max; Released := entry b <$> seq 0 c |}, None).
Proof.
  unfold Flist.Deserialize. cbv zeta. change (8 + 4) with 12.
  destruct (len b <? 12); [reflexivity|].
  pose proof (Uint32_range (slice b 8 12)) as Hc.
  assert (Hl : len (replicate (Z.to_nat (LittleEndian.Uint32 (slice b 8 12)))
                              (0 : PageNum))
               = LittleEndian.Uint32 (slice b 8 12))
    by (unfold len; rewrite length_replicate; lia).
  rewrite Hl, length_replicate.
  destruct (len b <? _); [reflexivity|].
  rewrite Deserialize_loop_full. reflexivity.
Qed.

Lemma slice_le64s (pre post : list byte) (l : list PageNum) (i : nat)
    (x : PageNum) (lo : nat) :
  l !! i = Some x -> lo = (length pre + 8 * i)%nat ->
  slice (pre ++ le64s l ++ post) lo (lo + 8) = le64 (to_uint64 x).
Proof.
  revert pre i lo. induction l as [|a l IH]; intros pre i lo Hi Hlo.
  - discriminate Hi.
  - destruct i as [|j]; simpl in Hi.
    + injection Hi as ->. rewrite le64s_cons, <- app_assoc.
      apply slice_app; [lia | rewrite length_le64; lia].
    + rewrite le64s_cons, <- app_assoc, (app_assoc pre).
      apply (IH (pre ++ le64 (to_uint64 a)) j lo Hi).
      rewrite length_app, length_le64. lia.
Qed.

Lemma entries_wire (h post : list byte) (l : list PageNum) (c : nat) :
  length h = 12%nat -> (c <= length l)%nat -> Forall in_int64 l ->
  entry (h ++ le64s l ++ post) <$> seq 0 c = take c l.
Proof.
  intros Hh Hc Hl. apply list_eq. intros i.
  rewrite list_lookup_fmap, lookup_take.
  destruct (decide (i < c)%nat) as [Hi|Hi].
  - rewrite lookup_seq_lt by assumption. simpl.
    destruct (lookup_lt_is_Some_2 l i) as [x Hx]; [lia|].
    rewrite Hx. f_equal. unfold entry.
    rewrite (slice_le64s h post l i x) by (trivial; lia).
    rewrite Uint64_le64.
    assert (Hr : 0 <= to_uint64 x < 2 ^ 64)
      by (apply Z.mod_pos_bound; lia).
    unfold to_uint64 at 1. rewrite Z.mod_small by assumption.
    apply to_int64_uint64.
    rewrite Forall_forall in Hl. apply Hl.
    apply list_elem_of_lookup. eauto.
  - rewrite lookup_seq_ge by lia. reflexivity.
Qed.

(** [Deserialize] after [Serialize], for a list of any length and with
    any bytes after the record (the padding of a page): the count on the
    wire is the length modulo [2 ^ 32], and that many entries come back,
    from the front. *)
Lemma Flist_Deserialize_Serialize (recv fl : Freelist) (post : list byte) :
  in_int64 (Max fl) -> Forall in_int64 (Released fl) ->
  Flist.Deserialize recv (Flist.Serialize fl ++ post)
  = ({| Max := Max fl;
        Released := take (Z.to_nat (to_uint32 (len (Released fl))))
                         (Released fl) |}, None).
Proof.
  intros Hmax Hrel.
  rewrite Flist_Deserialize_eq. cbv zeta.
  assert (Hlen : len (Flist.Serialize fl ++ post)
                 = 12 + 8 * len (Released fl) + len post).
  { unfold len. rewrite length_app, length_Flist_Serialize. lia. }
  assert (Hcnt : LittleEndian.Uint32 (slice (Flist.Serialize fl ++ post) 8 12)
                 = to_uint32 (len (Released fl))).
  { rewrite Flist_Serialize_wire, <- !app_assoc.
    rewrite (slice_app (le64 _) (le32 _) (le64s _ ++ post)) by reflexivity.
    rewrite Uint32_le32. unfold to_uint32. apply Z.mod_mod. lia. }
  assert (Hmx : to_int64 (LittleEndian.Uint64
                            (slice (Flist.Serialize fl ++ post) 0 8))
                = Max fl).
  { rewrite Flist_Serialize_wire, <- !app_assoc.
    rewrite slice_head by reflexivity.
    rewrite Uint64_le64. unfold to_uint64. rewrite Z.mod_mod by lia.
    apply to_int64_uint64, Hmax. }
  rewrite Hcnt, Hmx, Hlen.
  assert (Hle : 0 <= to_uint32 (len (Released fl)) <= len (Released fl)).
  { unfold to_uint32, len.
    pose proof (Z.mod_pos_bound (Z.of_nat (length (Released fl))) (2 ^ 32)).
    pose proof (Z.mod_le (Z.of_nat (length (Released fl))) (2 ^ 32)). lia. }
  destruct (Z.ltb_spec (12 + 8 * len (Released fl) + len post) 12) as [H|_];
    [unfold len in H; lia|].
  destruct (Z.ltb_spec (12 + 8 * len (Released fl) + len post)
              (12 + 8 * to_uint32 (len (Released fl)))) as [H|_];
    [unfold len in *; lia|].
  f_equal. f_equal.
  rewrite Flist_Serialize_wire, <- !app_assoc, app_assoc.
  apply entries_wire; [reflexivity | unfold len in *; lia | assumption].
Qed.

(** ** Page.Write *)

(** C8. [Write(b)] on a page whose buffer has length [s] puts the first
    [min (len b) s] bytes of [b] at the front of the buffer, drops the
    rest of [b], and leaves the bytes of the buffer behind them (and the
    length and the number of the page) as they were. *)
Theorem C8_page_write_prefix (pg : Page) (b : list byte) :
  let s := length (Data pg) in
  let k := Nat.min (length b) s in
  let pg' := Page_Write pg b in
  Num pg' = Num pg /\
  length (Data pg') = s /\
  take k (Data pg') = take k b /\
  drop k (Data pg') = drop k (Data pg).
Proof.
  cbv zeta. unfold Page_Write. cbn [Num Data].
  split; [reflexivity|]. split; [apply length_copy|].
  rewrite copy_spec.
  assert (Hk : length (take (length (Data pg)) b)
               = Nat.min (length b) (length (Data pg)))
    by (rewrite length_take; lia).
  split.
  - rewrite take_app_length' by (symmetry; exact Hk).
    destruct (Nat.le_ge_cases (length b) (length (Data pg))) as [H|H].
    + rewrite Nat.min_l by assumption. rewrite !take_ge by lia. reflexivity.
    + rewrite Nat.min_r by assumption. reflexivity.
  - rewrite drop_app_length' by (symmetry; exact Hk).
    destruct (Nat.le_ge_cases (length b) (length (Data pg))) as [H|H].
    + rewrite Nat.min_l by assumption. reflexivity.
    + rewrite Nat.min_r by assumption.
      rewrite !drop_ge by lia. reflexivity.
Qed.

(** ** Metainfo *)

Lemma Meta_roundtrip_padded (recv m : Metainfo) (post : list byte) :
  wf_Metainfo m ->
  Meta.Deserialize recv (Meta.Serialize m ++ post) = (m, None).
Proof.
  intros Hm. unfold wf_Metainfo in Hm. unfold Meta.Deserialize.
  rewrite Meta_Serialize_wire.
  destruct (Z.ltb_spec (len (le64 (to_uint64 (Freelist_page m)) ++ post)) 8)
    as [H|_].
  { unfold len in H. rewrite length_app, length_le64 in H. lia. }
  rewrite slice_head by reflexivity.
  rewrite Uint64_le64. unfold to_uint64. rewrite Z.mod_mod by lia.
  fold (to_uint64 (Freelist_page m)).
  rewrite (to_int64_uint64 _ Hm). destruct m; reflexivity.
Qed.

(** C6. For every Metainfo [m] (its page number an [int64]),
    [Deserialize(Serialize(m))] returns no error and leaves the receiver
    equal to [m], field by field, whatever the receiver held before. *)
Theorem C6_metainfo_roundtrip (recv m : Metainfo) :
  wf_Metainfo m ->
  Meta.Deserialize recv (Meta.Serialize m) = (m, None) /\
  Meta.Equal m (fst (Meta.Deserialize recv (Meta.Serialize m))) = true.
Proof.
  intros Hm.
  assert (E : Meta.Deserialize recv (Meta.Serialize m) = (m, None)).
  { rewrite <- (app_nil_r (Meta.Serialize m)).
    apply Meta_roundtrip_padded, Hm. }
  rewrite E. split; [reflexivity|]. apply Z.eqb_refl.
Qed.

Lemma C6_metainfo_roundtrip_witness :
  wf_Metainfo {| Freelist_page := -9223372036854775808 |} /\
  Meta.Deserialize NewMetainfo
    (Meta.Serialize {| Freelist_page := -9223372036854775808 |})
  = ({| Freelist_page := -9223372036854775808 |}, None).
Proof.
  split.
  - unfold wf_Metainfo, in_int64, min_int64, max_int64. simpl. lia.
  - apply (C6_metainfo_roundtrip NewMetainfo
             {| Freelist_page := -9223372036854775808 |}).
    unfold wf_Metainfo, in_int64, min_int64, max_int64. simpl. lia.
Defined.

(** ** Freelist: decoding *)

(** C7. [Deserialize(b)] fails with [ErrWrongBytes] exactly when [b] has
    fewer than 12 bytes or fewer than [12 + 8 * c], [c] the count in bytes
    8..12; in every other case it returns no error, [Max] is read from
    the first 8 bytes and entry [i] of [Released], for [i < c], from the
    8 bytes at [12 + 8 * i]. *)
Theorem C7_deserialize_wrong_bytes_iff (recv : Freelist) (b : list byte) :
  let c := LittleEndian.Uint32 (slice b 8 12) in
  (wrong_bytes (snd (Flist.Deserialize recv b))
   <-> (len b < 12 \/ len b < 12 + 8 * c)) /\
  ((len b < 12 \/ len b < 12 + 8 * c) \/
   Flist.Deserialize recv b =
     ({| Max := to_int64 (LittleEndian.Uint64 (slice b 0 8));
         Released :=
           (fun i : nat =>
              to_int64 (LittleEndian.Uint64 (slice b (12 + 8 * i) (12 + 8 * i + 8))))
           <$> seq 0 (Z.to_nat c) |}, None)).
Proof.
  cbv zeta. rewrite Flist_Deserialize_eq. cbv zeta.
  destruct (Z.ltb_spec (len b) 12) as [H1|H1].
  - split; [|left; left; exact H1].
    split; [intros _; left; exact H1|].
    intros _. exists head_error. split; reflexivity.
  - destruct (Z.ltb_spec (len b) (12 + 8 * LittleEndian.Uint32 (slice b 8 12)))
      as [H2|H2].
    + split; [|left; right; exact H2].
      split; [intros _; right; exact H2|].
      intros _. exists body_error. split; reflexivity.
    + split; [|right; reflexivity].
      split.
      * intros (e & He & _). discriminate He.
      * intros [H|H]; lia.
Qed.

(** C9. When [b] has its 12 header bytes but fewer than [12 + 8 * c], the
    call returns [ErrWrongBytes] and the receiver is not what it was:
    [Max] is the word of the first 8 bytes and [Released] is [c] zeros,
    [c >= 1]; a fresh Freelist (or any other with nothing released) comes
    out changed. *)
Theorem C9_failed_deserialize_mutates (recv : Freelist) (b : list byte) :
  12 <= len b ->
  len b < 12 + 8 * LittleEndian.Uint32 (slice b 8 12) ->
  wrong_bytes (snd (Flist.Deserialize recv b)) /\
  fst (Flist.Deserialize recv b) =
    {| Max := to_int64 (LittleEndian.Uint64 (slice b 0 8));
       Released := replicate (Z.to_nat (LittleEndian.Uint32 (slice b 8 12))) 0 |} /\
  1 <= LittleEndian.Uint32 (slice b 8 12) /\
  fst (Flist.Deserialize NewFreelist b) <> NewFreelist.
Proof.
  intros H1 H2.
  assert (E : forall r, Flist.Deserialize r b =
    ({| Max := to_int64 (LittleEndian.Uint64 (slice b 0 8));
        Released := replicate (Z.to_nat (LittleEndian.Uint32 (slice b 8 12))) 0 |},
     Some body_error)).
  { intros r. rewrite Flist_Deserialize_eq. cbv zeta.
    destruct (Z.ltb_spec (len b) 12); [lia|].
    destruct (Z.ltb_spec (len b) (12 + 8 * LittleEndian.Uint32 (slice b 8 12)));
      [reflexivity|lia]. }
  assert (Hc : 1 <= LittleEndian.Uint32 (slice b 8 12)) by lia.
  rewrite !E. cbn [fst snd].
  split; [exists body_error; split; reflexivity|].
  split; [reflexivity|]. split; [exact Hc|].
  intros Heq. apply (f_equal (fun fl => length (Released fl))) in Heq.
  cbn [Released NewFreelist length] in Heq.
  rewrite length_replicate in Heq. lia.
Qed.

Lemma C9_failed_deserialize_mutates_witness :
  fst (Flist.Deserialize NewFreelist truncated) = {| Max := 7; Released := [0] |}
  /\ wrong_bytes (snd (Flist.Deserialize NewFreelist truncated)).
Proof.
  assert (H1 : 12 <= len truncated) by (vm_compute; discriminate).
  assert (H2 : len truncated < 12 + 8 * LittleEndian.Uint32 (slice truncated 8 12))
    by (vm_compute; reflexivity).
  destruct (C9_failed_deserialize_mutates NewFreelist truncated H1 H2)
    as (Hw & Hst & _ & _).
  split; [rewrite Hst; reflexivity | exact Hw].
Defined.

(** ** Freelist: round trip *)

(** With fewer than [2 ^ 32] entries the count survives the wire and the
    record comes back as it was, order included. *)
Lemma Flist_roundtrip_padded (recv fl : Freelist) (post : list byte) :
  wf_Freelist fl -> len (Released fl) < 2 ^ 32 ->
  Flist.Deserialize recv (Flist.Serialize fl ++ post) = (fl, None).
Proof.
  intros [Hmax Hrel] Hlen.
  rewrite Flist_Deserialize_Serialize by assumption.
  unfold to_uint32. rewrite Z.mod_small by (unfold len in *; lia).
  unfold len. rewrite Nat2Z.id, take_ge by lia.
  destruct fl; reflexivity.
Qed.

Lemma Flist_roundtrip_exact (recv fl : Freelist) :
  wf_Freelist fl -> len (Released fl) < 2 ^ 32 ->
  Flist.Deserialize recv (Flist.Serialize fl) = (fl, None).
Proof.
  intros Hwf Hlen. rewrite <- (app_nil_r (Flist.Serialize fl)).
  apply Flist_roundtrip_padded; assumption.
Qed.

Lemma Z_of_many : Z.of_nat many = 4294967296.
Proof. unfold many. apply Z2Nat.id. lia. Qed.

Lemma len_full_freelist : len (Released full_freelist) = 4294967296.
Proof.
  unfold len, full_freelist. cbn [Released].
  rewrite length_fmap, length_seq. apply Z_of_many.
Qed.

Lemma wf_full_freelist : wf_Freelist full_freelist.
Proof.
  split.
  - unfold full_freelist, in_int64, min_int64, max_int64. cbn [Max]. lia.
  - unfold full_freelist. cbn [Released].
    apply Forall_forall. intros x Hx.
    apply list_elem_of_fmap in Hx as (j & -> & Hj).
    apply elem_of_seq in Hj. pose proof Z_of_many as Hm.
    unfold in_int64, min_int64, max_int64. lia.
Qed.

(** C5, as stated, fails: the count on the wire is a [uint32].  The
    serialized form of [full_freelist] announces no entry, [Deserialize]
    accepts it, and the page 3 that was released is gone. *)
Lemma C5_counterexample :
  wf_Freelist full_freelist /\
  Flist.Deserialize NewFreelist (Flist.Serialize full_freelist)
    = ({| Max := 4294967299; Released := [] |}, None) /\
  In 3 (Released full_freelist) /\
  ~ In 3 (Released (fst (Flist.Deserialize NewFreelist
                           (Flist.Serialize full_freelist)))).
Proof.
  assert (E : Flist.Deserialize NewFreelist (Flist.Serialize full_freelist)
              = ({| Max := 4294967299; Released := [] |}, None)).
  { rewrite <- (app_nil_r (Flist.Serialize full_freelist)).
    rewrite Flist_Deserialize_Serialize by apply wf_full_freelist.
    rewrite len_full_freelist.
    change (to_uint32 4294967296) with 0.
    change (Z.to_nat 0) with 0%nat. rewrite take_0. reflexivity. }
  split; [apply wf_full_freelist|]. split; [exact E|]. split.
  - apply list_elem_of_In. unfold full_freelist. cbn [Released].
    apply list_elem_of_fmap. exists 3%nat. split; [reflexivity|].
    apply elem_of_seq. pose proof Z_of_many as Hm. lia.
  - rewrite E. cbn [fst Released]. intros [].
Qed.

(** C5, amended. For every Freelist [f] with fewer than [2 ^ 32] released
    entries, [Deserialize(Serialize(f))] returns no error and leaves a
    receiver with the same [Max] and the same set of released page
    numbers as [f] (the code's own [Equal] holds between the two). *)
Theorem C5_freelist_roundtrip (recv f : Freelist) :
  wf_Freelist f -> len (Released f) < 2 ^ 32 ->
  exists f',
    Flist.Deserialize recv (Flist.Serialize f) = (f', None) /\
    Max f' = Max f /\
    (forall n, In n (Released f') <-> In n (Released f)) /\
    Flist.Equal f f' = true.
Proof.
  intros Hwf Hlen. exists f.
  split; [apply Flist_roundtrip_exact; assumption|].
  split; [reflexivity|]. split; [reflexivity|].
  unfold Flist.Equal. rewrite !Z.eqb_refl. simpl.
  apply forallb_forall. intros x Hx.
  apply existsb_exists. exists x. split; [exact Hx | apply Z.eqb_refl].
Qed.

Lemma C5_freelist_roundtrip_witness :
  exists f',
    Flist.Deserialize NewFreelist
      (Flist.Serialize {| Max := 13; Released := [7; 4; 9] |}) = (f', None) /\
    Max f' = 13 /\
    (forall n, In n (Released f') <-> In n [7; 4; 9]) /\
    Flist.Equal {| Max := 13; Released := [7; 4; 9] |} f' = true.
Proof.
  apply (C5_freelist_roundtrip NewFreelist {| Max := 13; Released := [7; 4; 9] |}).
  - split; [|repeat constructor];
      unfold in_int64, min_int64, max_int64; simpl; lia.
  - vm_compute. reflexivity.
Defined.

(** ** Freelist: allocation *)

(** A call of [Next] with nothing released returns [Max] as it stands and
    leaves [Max + 1]. *)
Lemma Next_grow (fl : Freelist) :
  Released fl = [] -> in_int64 (Max fl + 1) ->
  Flist.Next fl = (Max fl, {| Max := Max fl + 1; Released := [] |}).
Proof.
  intros Hrel Hmax. unfold Flist.Next. rewrite Hrel. cbn [len length Z.of_nat].
  rewrite Z.eqb_refl, to_int64_id by assumption. reflexivity.
Qed.

Lemma Next_times_grow (n : nat) (fl : Freelist) :
  Released fl = [] -> min_int64 <= Max fl -> Max fl + Z.of_nat n <= max_int64 ->
  Next_times n fl =
    ((fun i : nat => Max fl + Z.of_nat i) <$> seq 0 n,
     {| Max := Max fl + Z.of_nat n; Released := [] |}).
Proof.
  revert fl. induction n as [|n IH]; intros fl Hrel Hlo Hhi.
  - cbn [Next_times seq fmap list_fmap Z.of_nat]. rewrite Z.add_0_r.
    destruct fl as [mx rel]. cbn in Hrel |- *. rewrite Hrel. reflexivity.
  - cbn [Next_times]. rewrite Next_grow
      by (trivial; unfold in_int64; lia).
    rewrite IH by (cbn [Max Released]; trivial; lia).
    cbn [Max seq fmap list_fmap]. f_equal.
    + f_equal; [f_equal; lia|].
      rewrite <- fmap_S_seq, <- list_fmap_compose. apply list_fmap_ext.
      intros i x Hx. cbn. lia.
    + f_equal. lia.
Qed.

(** C2, as stated, fails: the first number a fresh Freelist hands out is
    the reserved boundary itself, not the number above it; [Next] returns
    the value [Max] had before the increment. *)
Lemma C2_counterexample :
  fst (Flist.Next NewFreelist) = BeginFreeBlocks /\
  fst (Flist.Next NewFreelist) <> BeginFreeBlocks + 1 /\
  fst (Flist.Next NewFreelist) <> Max (snd (Flist.Next NewFreelist)).
Proof.
  vm_compute. repeat split; discriminate.
Qed.

(** C2, amended. On a fresh Freelist, for every [N] with [boundary + N]
    an [int64], [N] calls of [Next] in a row hand out the [N] consecutive
    numbers [boundary, boundary + 1, ..., boundary + N - 1], the first
    being the boundary itself: each call returns [Max] as it stands and
    leaves [Max] one higher, so [boundary + N] after the last. *)
Theorem C2_growth_from_boundary (N : nat) :
  BeginFreeBlocks + Z.of_nat N <= max_int64 ->
  Next_times N NewFreelist =
    ((fun i : nat => BeginFreeBlocks + Z.of_nat i) <$> seq 0 N,
     {| Max := BeginFreeBlocks + Z.of_nat N; Released := [] |}).
Proof.
  intros HN. apply (Next_times_grow N NewFreelist).
  - reflexivity.
  - vm_compute. discriminate.
  - exact HN.
Qed.

Lemma C2_growth_from_boundary_witness :
  Next_times 4 NewFreelist = ([2; 3; 4; 5], {| Max := 6; Released := [] |}).
Proof.
  apply (C2_growth_from_boundary 4). vm_compute. discriminate.
Defined.

(** [Next] after a release that went through returns the released number
    and undoes the release. *)
Lemma Next_Release (fl : Freelist) (num : PageNum) :
  BeginFreeBlocks < num -> Flist.Next (Flist.Release fl num) = (num, fl).
Proof.
  intros Hnum. unfold Flist.Release.
  destruct (Z.leb_spec num BeginFreeBlocks) as [H|_]; [lia|].
  unfold Flist.Next. cbn [Released Max].
  unfold len. rewrite length_app. cbn [length].
  destruct (Z.eqb_spec (Z.of_nat (length (Released fl) + 1)) 0) as [H|_]; [lia|].
  replace (length (Released fl) + 1 - 1)%nat with (length (Released fl)) by lia.
  rewrite list_lookup_middle by reflexivity. rewrite take_app_length.
  destruct fl; reflexivity.
Qed.

(** C3, as stated, fails: a page number at or below the boundary is not
    taken by [Release], so it does not come back.  After [Release(1)] and
    [Release(5)] the two calls of [Next] return 5 and then 2. *)
Lemma C3_counterexample :
  let fl := Flist.Release (Flist.Release NewFreelist 1) 5 in
  fst (Flist.Next fl) = 5 /\
  fst (Flist.Next (snd (Flist.Next fl))) = 2 /\
  fst (Flist.Next (snd (Flist.Next fl))) <> 1.
Proof.
  vm_compute. repeat split; discriminate.
Qed.

(** C3, amended. On a fresh Freelist, for all page numbers [a] and [b]
    above the reserved boundary, [Release(a)], [Release(b)] and two calls
    of [Next] return [b] and then [a]. *)
Theorem C3_lifo_reuse (a b : PageNum) :
  BeginFreeBlocks < a -> BeginFreeBlocks < b ->
  let fl := Flist.Release (Flist.Release NewFreelist a) b in
  fst (Flist.Next fl) = b /\
  fst (Flist.Next (snd (Flist.Next fl))) = a.
Proof.
  intros Ha Hb fl. unfold fl.
  rewrite (Next_Release _ b Hb). cbn [fst snd].
  rewrite (Next_Release _ a Ha). split; reflexivity.
Qed.

Lemma C3_lifo_reuse_witness :
  let fl := Flist.Release (Flist.Release NewFreelist 7) 3 in
  fst (Flist.Next fl) = 3 /\ fst (Flist.Next (snd (Flist.Next fl))) = 7.
Proof.
  apply (C3_lifo_reuse 7 3); vm_compute; reflexivity.
Defined.

(** C4. [Release(n)] with [n] at or below the reserved boundary leaves the
    Freelist as it was, [Max] and [Released] both, so the next call of
    [Next] returns what it would have returned without it. *)
Theorem C4_release_reserved_noop (fl : Freelist) (n : PageNum) :
  n <= BeginFreeBlocks ->
  Flist.Release fl n = fl /\
  Flist.Next (Flist.Release fl n) = Flist.Next fl.
Proof.
  intros Hn.
  assert (E : Flist.Release fl n = fl).
  { unfold Flist.Release.
    destruct (Z.leb_spec n BeginFreeBlocks) as [_|H]; [reflexivity|lia]. }
  rewrite E. split; reflexivity.
Qed.

Lemma C4_release_reserved_noop_witness :
  Flist.Release {| Max := 9; Released := [4; 6] |} 2
    = {| Max := 9; Released := [4; 6] |}.
Proof.
  apply (C4_release_reserved_noop {| Max := 9; Released := [4; 6] |} 2).
  vm_compute. discriminate.
Defined.

Lemma above_boundary_call (fl : Freelist) (c : call) :
  above_boundary fl -> above_boundary (do_call fl c).
Proof.
  unfold above_boundary. intros H. destruct c as [|num]; cbn [do_call].
  - unfold Flist.Next. destruct (len (Released fl) =? 0); cbn [snd Released].
    + exact H.
    + apply Forall_take, H.
  - unfold Flist.Release.
    destruct (Z.leb_spec num BeginFreeBlocks) as [_|Hn]; [exact H|].
    cbn [Released]. apply Forall_app. split; [exact H|].
    constructor; [exact Hn | constructor].
Qed.

Lemma above_boundary_run (calls : list call) (fl : Freelist) :
  above_boundary fl -> above_boundary (foldl do_call fl calls).
Proof.
  revert fl. induction calls as [|c calls IH]; intros fl H; cbn [foldl].
  - exact H.
  - apply IH, above_boundary_call, H.
Qed.

(** C10. The first number a fresh Freelist hands out is the boundary,
    [BeginFreeBlocks] = 2, and after any sequence of [Next] and [Release]
    calls on a fresh Freelist that number is not in the released list. *)
Theorem C10_boundary_never_released (calls : list call) :
  BeginFreeBlocks = 2 /\
  fst (Flist.Next NewFreelist) = BeginFreeBlocks /\
  ~ In BeginFreeBlocks (Released (run calls)).
Proof.
  split; [reflexivity|]. split; [reflexivity|].
  intros Hin.
  assert (H : above_boundary (run calls))
    by (apply above_boundary_run; constructor).
  unfold above_boundary in H. rewrite Forall_forall in H.
  apply list_elem_of_In, H in Hin. lia.
Qed.

(** ** The file: reading back what was written *)

Lemma WriteAt_overlay (f : File) (b : list byte) (off : Z) :
  0 <= off -> 0 < len b ->
  WriteAt f b off = inl (overlay f (Z.to_nat off) b).
Proof.
  intros Hoff Hb. unfold WriteAt.
  destruct (Z.ltb_spec off 0) as [H|_]; [lia|].
  destruct (Z.eqb_spec (len b) 0) as [H|_]; [lia|]. reflexivity.
Qed.

Lemma length_overlay_head (f : File) (o : nat) :
  length (take o f ++ replicate (o - length f) x00) = o.
Proof.
  rewrite length_app, length_take, length_replicate. lia.
Qed.

(** The bytes written are the bytes read at the same offset. *)
Lemma read_overlay_same (f : File) (o : nat) (b : list byte) :
  take (length b) (drop o (overlay f o b)) = b.
Proof.
  unfold overlay. rewrite app_assoc.
  rewrite drop_app_length' by (symmetry; apply length_overlay_head).
  apply take_app_length.
Qed.

(** A write leaves what lies wholly before its offset. *)
Lemma read_overlay_before (f : File) (o : nat) (b : list byte) (o' n : nat) :
  (o' + n <= o)%nat -> (o' + n <= length f)%nat ->
  take n (drop o' (overlay f o b)) = take n (drop o' f).
Proof.
  intros Ho Hf. unfold overlay.
  rewrite drop_app_le by (rewrite length_take; lia).
  rewrite take_app_le by (rewrite length_drop, length_take; lia).
  rewrite !take_drop_commute, take_take. f_equal. f_equal. lia.
Qed.

Lemma ReadAt_full (f : File) (n : nat) (off : Z) (d : list byte) :
  0 <= off -> (0 < n)%nat -> length d = n ->
  take n (drop (Z.to_nat off) f) = d ->
  ReadAt f n off = inl d.
Proof.
  intros Hoff Hn Hd Hread. unfold ReadAt.
  destruct (Z.ltb_spec off 0) as [H|_]; [lia|].
  destruct (Z.eqb_spec (Z.of_nat n) 0) as [H|_]; [lia|].
  rewrite Hread. unfold len. rewrite Hd.
  destruct (Z.ltb_spec (Z.of_nat n) (Z.of_nat n)) as [H|_]; [lia|]. reflexivity.
Qed.

Lemma page_of_pad (ps : nat) (rec : list byte) :
  (length rec <= ps)%nat ->
  page_of ps rec = rec ++ replicate (ps - length rec) x00.
Proof.
  intros H. unfold page_of, make_bytes.
  rewrite copy_spec, length_replicate, take_ge, drop_replicate by assumption.
  reflexivity.
Qed.

Lemma length_page_of (ps : nat) (rec : list byte) : length (page_of ps rec) = ps.
Proof.
  unfold page_of, make_bytes. rewrite length_copy. apply length_replicate.
Qed.

Lemma copy_full (dst src : list byte) :
  length src = length dst -> copy dst src = src.
Proof.
  intros H. rewrite copy_spec, H, take_ge, drop_ge by lia. apply app_nil_r.
Qed.

(** ** Pager: flush and recovery *)

Lemma Alloc_eq (pgr : Pager) :
  0 <= psize pgr ->
  Pgr.Alloc pgr
  = Ok {| Num := 0; Data := make_bytes (Z.to_nat (psize pgr)) |} pgr.
Proof.
  intros H. unfold Pgr.Alloc, NewPage.
  destruct (Z.ltb_spec (psize pgr) 0) as [H'|_]; [lia|]. reflexivity.
Qed.

Lemma Write_eq (pg : Page) (pgr : Pager) :
  0 <= Num pg * psize pgr <= max_int64 -> 0 < len (Data pg) ->
  Pgr.Write pg pgr
  = Ok tt (set_f pgr (overlay (f pgr) (Z.to_nat (Num pg * psize pgr)) (Data pg))).
Proof.
  intros Hoff Hlen. unfold Pgr.Write, bind, get, wrap, Pgr.f_WriteAt.
  rewrite to_int64_id
    by (unfold in_int64, min_int64, max_int64 in *; lia).
  rewrite WriteAt_overlay by lia. reflexivity.
Qed.

Lemma Read_eq (num : PageNum) (pgr : Pager) (d : list byte) :
  0 < psize pgr -> 0 <= num * psize pgr <= max_int64 ->
  length d = Z.to_nat (psize pgr) ->
  take (Z.to_nat (psize pgr)) (drop (Z.to_nat (num * psize pgr)) (f pgr)) = d ->
  Pgr.Read num pgr = Ok {| Num := num; Data := d |} pgr.
Proof.
  intros Hps Hoff Hd Hread. unfold Pgr.Read, bind, get, wrap, Pgr.f_ReadAt, ret.
  rewrite Alloc_eq by lia. cbn [WithNum snd Num Data].
  rewrite to_int64_id
    by (unfold in_int64, min_int64, max_int64 in *; lia).
  unfold make_bytes. rewrite length_replicate.
  rewrite (ReadAt_full _ _ _ d) by (trivial; lia).
  rewrite copy_full by (rewrite length_replicate; exact Hd). reflexivity.
Qed.

Lemma Flush_eq (pgr : Pager) :
  0 < psize pgr ->
  0 <= Freelist_page (meta pgr) * psize pgr <= max_int64 ->
  Pgr.Flush pgr = Ok tt (set_f pgr (flushed pgr)).
Proof.
  intros Hps Hoff. unfold Pgr.Flush, bind, get, wrap.
  rewrite Alloc_eq by lia. cbn [WithNum snd Num Data].
  fold (page_of (Z.to_nat (psize pgr)) (Meta.Serialize (meta pgr))).
  rewrite Write_eq; cbn [Num Data].
  - change (DefaultMetaPage * psize pgr) with 0. change (Z.to_nat 0) with 0%nat.
    rewrite Alloc_eq by (cbn [psize set_f]; lia).
    cbn [psize meta flist f set_f WithNum snd Num Data].
    fold (page_of (Z.to_nat (psize pgr)) (Flist.Serialize (flist pgr))).
    rewrite Write_eq; cbn [Num Data psize f set_f].
    + reflexivity.
    + exact Hoff.
    + unfold len. rewrite length_page_of. lia.
  - change (DefaultMetaPage * psize pgr) with 0. unfold max_int64. lia.
  - unfold len. rewrite length_page_of. lia.
Qed.

Lemma flushed_meta_page (pgr : Pager) :
  let ps := Z.to_nat (psize pgr) in
  (ps <= Z.to_nat (Freelist_page (meta pgr) * psize pgr))%nat ->
  take ps (drop 0 (flushed pgr)) = page_of ps (Meta.Serialize (meta pgr)).
Proof.
  intros ps Hoff. unfold flushed. fold ps.
  set (P0 := page_of ps (Meta.Serialize (meta pgr))).
  assert (HP0 : length P0 = ps) by apply length_page_of.
  rewrite read_overlay_before.
  - rewrite <- HP0 at 1. apply read_overlay_same.
  - lia.
  - unfold overlay. rewrite !length_app, HP0. lia.
Qed.

Lemma flushed_flist_page (pgr : Pager) :
  let ps := Z.to_nat (psize pgr) in
  take ps (drop (Z.to_nat (Freelist_page (meta pgr) * psize pgr)) (flushed pgr))
  = page_of ps (Flist.Serialize (flist pgr)).
Proof.
  intros ps. unfold flushed. fold ps.
  set (P1 := page_of ps (Flist.Serialize (flist pgr))).
  assert (HP1 : length P1 = ps) by apply length_page_of.
  rewrite <- HP1 at 1. apply read_overlay_same.
Qed.

Lemma Recovery_flushed (pgr pgr' : Pager) :
  wf_Freelist (flist pgr) ->
  8 <= psize pgr ->
  12 + 8 * len (Released (flist pgr)) <= psize pgr ->
  0 < Freelist_page (meta pgr) ->
  Freelist_page (meta pgr) * psize pgr <= max_int64 ->
  len (Released (flist pgr)) < 2 ^ 32 ->
  f pgr' = flushed pgr -> psize pgr' = psize pgr ->
  Pgr.Recovery pgr' = Ok tt (set_flist (set_meta pgr' (meta pgr)) (flist pgr)).
Proof.
  intros Hwf Hps8 Hps12 Hfl Hoff Hcnt Hf Hps.
  set (ps := Z.to_nat (psize pgr)).
  assert (Hwm : wf_Metainfo (meta pgr)).
  { unfold wf_Metainfo, in_int64, min_int64, max_int64 in *. nia. }
  assert (Hge : (ps <= Z.to_nat (Freelist_page (meta pgr) * psize pgr))%nat).
  { unfold ps. apply Z2Nat.inj_le; nia. }
  unfold Pgr.Recovery, bind, get, wrap.
  rewrite (Read_eq DefaultMetaPage pgr' (page_of ps (Meta.Serialize (meta pgr)))).
  2: lia.
  2: { change (DefaultMetaPage * psize pgr') with 0. unfold max_int64. lia. }
  2: { rewrite Hps. apply length_page_of. }
  2: { rewrite Hps, Hf. change (DefaultMetaPage * psize pgr) with 0.
       apply flushed_meta_page, Hge. }
  cbn [Data]. unfold Pgr.meta_Deserialize.
  rewrite page_of_pad by (change (length (Meta.Serialize (meta pgr))) with 8%nat; lia).
  rewrite Meta_roundtrip_padded by exact Hwm.
  cbn [meta set_meta].
  rewrite (Read_eq (Freelist_page (meta pgr)) (set_meta pgr' (meta pgr))
             (page_of ps (Flist.Serialize (flist pgr)))); cbn [psize f set_meta].
  2: lia.
  2: { rewrite Hps. nia. }
  2: { rewrite Hps. apply length_page_of. }
  2: { rewrite Hps, Hf. apply flushed_flist_page. }
  cbn [Data]. unfold Pgr.flist_Deserialize. cbn [flist set_meta].
  rewrite page_of_pad
    by (rewrite length_Flist_Serialize; unfold len in Hps12; lia).
  rewrite Flist_roundtrip_padded by assumption.
  reflexivity.
Qed.

(** C1, as stated, fails: the offset of the Freelist's page is the
    product of its number and the page size in [int64], and the product
    can wrap.  With a page size of 4096 and the Freelist at page
    [2 ^ 52] the offset wraps to 0: [Flush] writes the Freelist's page
    over the Metainfo's, and [Recovery] reads a Metainfo that names page 2
    and fails on the read of that page. *)
Lemma C1_counterexample :
  (8 <= psize wrapping_pager /\
   12 + 8 * len (Released (flist wrapping_pager)) <= psize wrapping_pager /\
   0 <= Freelist_page (meta wrapping_pager) /\
   Freelist_page (meta wrapping_pager) <> 0 /\
   wf_Metainfo (meta wrapping_pager) /\ wf_Freelist (flist wrapping_pager)) /\
  to_int64 (Freelist_page (meta wrapping_pager) * psize wrapping_pager) = 0 /\
  Pgr.Flush wrapping_pager = Ok tt overwritten /\
  Pgr.Recovery overwritten
    = Fail (Errorf "pager: recover freelist" [] (Errorf "pager/read" [2] EOF))
           (set_meta overwritten {| Freelist_page := 2 |}) /\
  Pgr.Recovery (reopen overwritten)
    = Fail (Errorf "pager: recover freelist" [] (Errorf "pager/read" [2] EOF))
           (set_meta (reopen overwritten) {| Freelist_page := 2 |}).
Proof.
  split.
  { split; [vm_compute; discriminate|].
    split; [vm_compute; discriminate|].
    split; [vm_compute; discriminate|].
    split; [vm_compute; discriminate|].
    split; [split; vm_compute; discriminate|].
    split; [split; vm_compute; discriminate | constructor]. }
  split; [vm_compute; reflexivity|].
  split; [vm_compute; reflexivity|].
  split; vm_compute; reflexivity.
Qed.

(** C1, amended. For every Pager whose page size is at least 8 and at
    least [12 + 8 * |released|], whose Metainfo names a page above 0 for
    the Freelist, whose offset [page * page size] for that page does not
    leave [int64], and whose released list has fewer than [2 ^ 32]
    entries: [Flush] returns no error, and [Recovery] on the file it
    leaves (by the same Pager, by a reopened one, by any Pager of the same
    page size on that file) returns no error and leaves a Metainfo equal
    to the flushed one and a Freelist with the same [Max] and the same
    set of released page numbers. *)
Theorem C1_flush_recovery (pgr : Pager) :
  wf_Freelist (flist pgr) ->
  8 <= psize pgr ->
  12 + 8 * len (Released (flist pgr)) <= psize pgr ->
  0 < Freelist_page (meta pgr) ->
  Freelist_page (meta pgr) * psize pgr <= max_int64 ->
  len (Released (flist pgr)) < 2 ^ 32 ->
  exists pgr1,
    Pgr.Flush pgr = Ok tt pgr1 /\
    forall pgr',
      f pgr' = f pgr1 -> psize pgr' = psize pgr1 ->
      exists pgr2,
        Pgr.Recovery pgr' = Ok tt pgr2 /\
        meta pgr2 = meta pgr /\
        Meta.Equal (meta pgr) (meta pgr2) = true /\
        Max (flist pgr2) = Max (flist pgr) /\
        (forall n, In n (Released (flist pgr2)) <-> In n (Released (flist pgr))).
Proof.
  intros Hwf Hps8 Hps12 Hfl Hoff Hcnt.
  exists (set_f pgr (flushed pgr)). split.
  - apply Flush_eq; nia.
  - cbn [f psize set_f]. intros pgr' Hf Hps.
    exists (set_flist (set_meta pgr' (meta pgr)) (flist pgr)).
    split; [apply Recovery_flushed; assumption|].
    cbn [meta flist set_flist set_meta].
    split; [reflexivity|]. split; [apply Z.eqb_refl|].
    split; reflexivity.
Qed.

Lemma C1_flush_recovery_witness :
  exists pgr1,
    Pgr.Flush small_pager = Ok tt pgr1 /\
    forall pgr',
      f pgr' = f pgr1 -> psize pgr' = psize pgr1 ->
      exists pgr2,
        Pgr.Recovery pgr' = Ok tt pgr2 /\
        meta pgr2 = meta small_pager /\
        Meta.Equal (meta small_pager) (meta pgr2) = true /\
        Max (flist pgr2) = Max (flist small_pager) /\
        (forall n, In n (Released (flist pgr2))
                   <-> In n (Released (flist small_pager))).
Proof.
  apply (C1_flush_recovery small_pager).
  - split; [split; vm_compute; discriminate|].
    constructor; [split; vm_compute; discriminate|].
    constructor; [split; vm_compute; discriminate|]. constructor.
  - vm_compute. discriminate.
  - vm_compute. discriminate.
  - vm_compute. reflexivity.
  - vm_compute. discriminate.
  - vm_compute. reflexivity.
Defined.

(** ** The scenarios of the package's tests

    [TestPager], [TestMetainfo_Serialization] and
    [TestFreelist_Serialization] of [data_test.go], run on the model. *)

Example test_pager :
  exists pgr,
    recovery_and_read = Ok [[x64; x31]; [x64; x32]; [x64; x33]] pgr /\
    meta pgr = NewMetainfo /\
    flist pgr = {| Max := 5; Released := [] |}.
Proof.
  eexists. split; [vm_compute; reflexivity|]. split; reflexivity.
Qed.

Example test_metainfo_serialization :
  Meta.Deserialize {| Freelist_page := 0 |}
    (Meta.Serialize {| Freelist_page := 57 |})
  = ({| Freelist_page := 57 |}, None).
Proof. vm_compute. reflexivity. Qed.

(** Ten calls of [Next], then [Release(i)] for some of [0 .. 9]: the
    numbers at or below the boundary are not taken. *)
Example test_freelist_serialization :
  let expected :=
    foldl Flist.Release (snd (Next_times 10 NewFreelist)) [0; 2; 3; 5; 8] in
  expected = {| Max := 12; Released := [3; 5; 8] |} /\
  let actual := fst (Flist.Deserialize {| Max := 0; Released := [] |}
                       (Flist.Serialize expected)) in
  Flist.Equal expected actual = true.
Proof. vm_compute. split; reflexivity. Qed.

(** * Further properties of the package

    What follows covers the code around the claims: the other direction
    of the two encodings, [Equal], batches of [Release] and [Next], the
    page buffer under repeated writes, and the pager's I/O, [Flush],
    [Recovery] and [NewPager] at their edges. *)

(** ** Encodings, read back *)

Lemma to_of_byte (b : byte) : to_byte (of_byte b) = b.
Proof.
  unfold to_byte, of_byte.
  pose proof (Byte.to_N_bounded b) as Hb.
  rewrite Z.mod_small by lia. rewrite N2Z.id, Byte.of_to_N. reflexivity.
Qed.

Lemma to_byte_mod (x y : Z) : x mod 256 = y mod 256 -> to_byte x = to_byte y.
Proof. intros H. unfold to_byte. rewrite H. reflexivity. Qed.

Lemma testbit_of_byte_high (b : byte) (n : Z) :
  8 <= n -> Z.testbit (of_byte b) n = false.
Proof.
  intros Hn. pose proof (of_byte_range b) as Hb.
  destruct (Z.eq_dec (of_byte b) 0) as [->|H0]; [apply Z.testbit_0_l|].
  apply Z.bits_above_log2; [lia|].
  assert (Z.log2 (of_byte b) < 8) by (apply Z.log2_lt_pow2; lia). lia.
Qed.

(** Byte [k / 8] of a word assembled from eight bytes. *)
Lemma byte_of_lor64 (b0 b1 b2 b3 b4 b5 b6 b7 : byte) (k : Z) (bk : byte) :
  (k = 0 /\ bk = b0) \/ (k = 8 /\ bk = b1) \/ (k = 16 /\ bk = b2) \/
  (k = 24 /\ bk = b3) \/ (k = 32 /\ bk = b4) \/ (k = 40 /\ bk = b5) \/
  (k = 48 /\ bk = b6) \/ (k = 56 /\ bk = b7) ->
  to_byte (Z.shiftr (LittleEndian.Uint64 [b0; b1; b2; b3; b4; b5; b6; b7]) k) = bk.
Proof.
  intros Hk. rewrite <- (to_of_byte bk). apply to_byte_mod.
  unfold LittleEndian.Uint64, LittleEndian.at_. simpl default.
  apply Z.bits_inj'. intros n Hn. change 256 with (2 ^ 8).
  rewrite !Z.testbit_mod_pow2 by lia.
  destruct (Z.ltb_spec n 8) as [Hlt|Hge]; [|reflexivity]. cbn [andb].
  assert (0 <= k) by lia.
  rewrite Z.shiftr_spec by lia.
  rewrite <- (Z.shiftl_0_r (of_byte b0)).
  rewrite !Z.lor_spec, !Z.shiftl_spec by lia.
  destruct Hk as [[-> ->]|[[-> ->]|[[-> ->]|[[-> ->]|[[-> ->]|[[-> ->]|[[-> ->]|[-> ->]]]]]]]];
    repeat match goal with
    | |- context [Z.testbit (of_byte ?b) (n + ?k - ?j)] =>
        first [ replace (n + k - j) with n by lia
              | rewrite (testbit_of_byte_high b (n + k - j)) by lia
              | rewrite (Z.testbit_neg_r (of_byte b) (n + k - j)) by lia ]
    end;
    rewrite ?orb_false_r; reflexivity.
Qed.

Lemma byte_of_lor32 (b0 b1 b2 b3 : byte) (k : Z) (bk : byte) :
  (k = 0 /\ bk = b0) \/ (k = 8 /\ bk = b1) \/ (k = 16 /\ bk = b2) \/
  (k = 24 /\ bk = b3) ->
  to_byte (Z.shiftr (LittleEndian.Uint32 [b0; b1; b2; b3]) k) = bk.
Proof.
  intros Hk. rewrite <- (to_of_byte bk). apply to_byte_mod.
  unfold LittleEndian.Uint32, LittleEndian.at_. simpl default.
  apply Z.bits_inj'. intros n Hn. change 256 with (2 ^ 8).
  rewrite !Z.testbit_mod_pow2 by lia.
  destruct (Z.ltb_spec n 8) as [Hlt|Hge]; [|reflexivity]. cbn [andb].
  assert (0 <= k) by lia.
  rewrite Z.shiftr_spec by lia.
  rewrite <- (Z.shiftl_0_r (of_byte b0)).
  rewrite !Z.lor_spec, !Z.shiftl_spec by lia.
  destruct Hk as [[-> ->]|[[-> ->]|[[-> ->]|[-> ->]]]];
    repeat match goal with
    | |- context [Z.testbit (of_byte ?b) (n + ?k - ?j)] =>
        first [ replace (n + k - j) with n by lia
              | rewrite (testbit_of_byte_high b (n + k - j)) by lia
              | rewrite (Z.testbit_neg_r (of_byte b) (n + k - j)) by lia ]
    end;
    rewrite ?orb_false_r; reflexivity.
Qed.

Lemma le64_Uint64 (w : list byte) :
  length w = 8%nat -> le64 (LittleEndian.Uint64 w) = w.
Proof.
  intros H. do 9 (destruct w as [|? w]; try discriminate H).
  unfold le64. rewrite <- (Z.shiftr_0_r (LittleEndian.Uint64 _)) at 1.
  rewrite !(byte_of_lor64 _ _ _ _ _ _ _ _ _ _) by tauto.
  reflexivity.
Qed.

Lemma le32_Uint32 (w : list byte) :
  length w = 4%nat -> le32 (LittleEndian.Uint32 w) = w.
Proof.
  intros H. do 5 (destruct w as [|? w]; try discriminate H).
  unfold le32. rewrite <- (Z.shiftr_0_r (LittleEndian.Uint32 _)) at 1.
  rewrite !(byte_of_lor32 _ _ _ _ _ _) by tauto.
  reflexivity.
Qed.

Lemma Uint64_range (w : list byte) :
  length w = 8%nat -> 0 <= LittleEndian.Uint64 w < 2 ^ 64.
Proof.
  intros H. rewrite <- (le64_Uint64 w H) at 1 2. rewrite Uint64_le64.
  apply Z.mod_pos_bound. lia.
Qed.

Lemma to_uint64_int64 (u : Z) : 0 <= u < 2 ^ 64 -> to_uint64 (to_int64 u) = u.
Proof.
  intros Hu. unfold to_uint64, to_int64.
  rewrite Zminus_mod_idemp_l.
  replace (u + 2 ^ 63 - 2 ^ 63) with u by lia. apply Z.mod_small, Hu.
Qed.

Lemma length_slice (b : list byte) (lo hi : nat) :
  (lo <= hi)%nat -> (hi <= length b)%nat -> length (slice b lo hi) = (hi - lo)%nat.
Proof.
  intros H1 H2. unfold slice. rewrite length_take, length_drop. lia.
Qed.

Lemma slice_app_l (b post : list byte) (lo hi : nat) :
  (hi <= length b)%nat -> slice (b ++ post) lo hi = slice b lo hi.
Proof.
  intros H. unfold slice.
  destruct (decide (lo <= length b)%nat) as [Hlo|Hlo].
  - rewrite drop_app_le by lia. apply take_app_le. rewrite length_drop. lia.
  - replace (hi - lo)%nat with 0%nat by lia. reflexivity.
Qed.

Lemma le64s_app (l k : list PageNum) : le64s (l ++ k) = le64s l ++ le64s k.
Proof. apply flat_map_app. Qed.

(** The entries of a buffer, decoded and encoded again, are the bytes
    they were read from. *)
Lemma le64s_entries (b : list byte) (c : nat) :
  (12 + 8 * c <= length b)%nat ->
  le64s (entry b <$> seq 0 c) = take (8 * c) (drop 12 b).
Proof.
  induction c as [|c IH]; intros Hc.
  - reflexivity.
  - rewrite seq_S, fmap_app, le64s_app, IH by lia.
    cbn [Nat.add fmap list_fmap le64s flat_map]. rewrite app_nil_r.
    unfold entry.
    assert (Hw : length (slice b (12 + 8 * c) (12 + 8 * c + 8)) = 8%nat)
      by (rewrite length_slice; lia).
    rewrite to_uint64_int64 by (apply Uint64_range, Hw).
    rewrite le64_Uint64 by exact Hw.
    unfold slice. replace (12 + 8 * c + 8 - (12 + 8 * c))%nat with 8%nat by lia.
    rewrite <- (drop_drop b (8 * c) 12).
    replace (8 * S c)%nat with (8 * c + 8)%nat by lia.
    apply take_take_drop.
Qed.

Lemma Deserialize_decoded (recv : Freelist) (b : list byte) :
  12 <= len b -> 12 + 8 * LittleEndian.Uint32 (slice b 8 12) <= len b ->
  Flist.Deserialize recv b = (decoded b, None).
Proof.
  intros H1 H2. rewrite Flist_Deserialize_eq. cbv zeta.
  destruct (Z.ltb_spec (len b) 12); [lia|].
  destruct (Z.ltb_spec (len b) (12 + 8 * LittleEndian.Uint32 (slice b 8 12)));
    [lia|]. reflexivity.
Qed.

(** X1. [Freelist.Serialize] yields [12 + 8 * n] bytes for [n] released
    pages: [Max] in 8 bytes, the count modulo [2 ^ 32] in 4, then the
    entries in 8 bytes each, in the order of the list, all little-endian. *)
Theorem X1_freelist_serialize_layout (fl : Freelist) :
  Flist.Serialize fl
  = le64 (to_uint64 (Max fl)) ++ le32 (to_uint32 (len (Released fl)))
      ++ flat_map (fun num => le64 (to_uint64 num)) (Released fl) /\
  len (Flist.Serialize fl) = 12 + 8 * len (Released fl).
Proof.
  split; [apply Flist_Serialize_wire|].
  unfold len. rewrite length_Flist_Serialize. lia.
Qed.

(** X2. Decoding and encoding again gives the bytes back: for a buffer
    [b] that [Freelist.Deserialize] accepts, [Serialize] of the decoded
    Freelist is the first [12 + 8 * c] bytes of [b], [c] the count in
    bytes 8..12. *)
Theorem X2_freelist_decode_encode (recv : Freelist) (b : list byte) :
  12 <= len b -> 12 + 8 * LittleEndian.Uint32 (slice b 8 12) <= len b ->
  Flist.Serialize (fst (Flist.Deserialize recv b))
  = take (12 + 8 * Z.to_nat (LittleEndian.Uint32 (slice b 8 12))) b.
Proof.
  intros H1 H2. rewrite Deserialize_decoded by assumption. cbn [fst].
  pose proof (Uint32_range (slice b 8 12)) as Hc.
  set (c := Z.to_nat (LittleEndian.Uint32 (slice b 8 12))).
  assert (Hlen : (12 + 8 * c <= length b)%nat) by (unfold c, len in *; lia).
  rewrite Flist_Serialize_wire. unfold decoded. cbn [Max Released]. fold c.
  rewrite le64s_entries by exact Hlen.
  assert (H8 : length (slice b 0 8) = 8%nat) by (rewrite length_slice; lia).
  assert (H4 : length (slice b 8 12) = 4%nat) by (rewrite length_slice; lia).
  rewrite to_uint64_int64 by (apply Uint64_range, H8).
  rewrite le64_Uint64 by exact H8.
  unfold len. rewrite length_fmap, length_seq. unfold c at 1.
  rewrite Z2Nat.id by lia. unfold to_uint32. rewrite Z.mod_small by lia.
  rewrite le32_Uint32 by exact H4.
  unfold slice. rewrite drop_0. change (8 - 0)%nat with 8%nat.
  change (12 - 8)%nat with 4%nat.
  change (drop 12 b) with (drop (8 + 4) b). rewrite <- (drop_drop b 4 8).
  rewrite (take_take_drop (drop 8 b) 4 (8 * c)).
  rewrite (take_take_drop b 8 (4 + 8 * c)). f_equal.
Qed.

Lemma X2_freelist_decode_encode_witness :
  Flist.Serialize (fst (Flist.Deserialize NewFreelist three_entries))
  = take 36 three_entries.
Proof.
  apply (X2_freelist_decode_encode NewFreelist three_entries);
    vm_compute; discriminate.
Defined.

(** X3. [Freelist.Deserialize] reads the first [12 + 8 * c] bytes and no
    more: bytes after a record it accepts do not change the result (the
    zero padding of a page, or anything else). *)
Theorem X3_freelist_deserialize_ignores_tail (recv : Freelist)
    (b post : list byte) :
  12 <= len b -> 12 + 8 * LittleEndian.Uint32 (slice b 8 12) <= len b ->
  Flist.Deserialize recv (b ++ post) = Flist.Deserialize recv b.
Proof.
  intros H1 H2.
  pose proof (Uint32_range (slice b 8 12)) as Hc.
  assert (Hs4 : slice (b ++ post) 8 12 = slice b 8 12)
    by (apply slice_app_l; unfold len in *; lia).
  rewrite (Deserialize_decoded recv b) by assumption.
  rewrite Deserialize_decoded.
  - f_equal. unfold decoded. rewrite Hs4.
    rewrite (slice_app_l b post 0 8) by (unfold len in *; lia).
    f_equal. apply list_fmap_ext. intros i x Hx.
    apply lookup_seq in Hx as [-> Hi]. unfold entry.
    rewrite slice_app_l by (unfold len in *; lia). reflexivity.
  - unfold len in *. rewrite length_app. lia.
  - rewrite Hs4. unfold len in *. rewrite length_app. lia.
Qed.

Lemma X3_freelist_deserialize_ignores_tail_witness :
  Flist.Deserialize NewFreelist (three_entries ++ [x01; x02; x03])
  = Flist.Deserialize NewFreelist three_entries.
Proof.
  apply (X3_freelist_deserialize_ignores_tail NewFreelist three_entries);
    vm_compute; discriminate.
Defined.

(** X4. For [b] of 8 bytes or more, [Metainfo.Deserialize] returns no
    error, reads the first 8 bytes and no more, and [Serialize] of the
    result is those 8 bytes. *)
Theorem X4_metainfo_decode_encode (recv : Metainfo) (b post : list byte) :
  8 <= len b ->
  snd (Meta.Deserialize recv b) = None /\
  Meta.Serialize (fst (Meta.Deserialize recv b)) = take 8 b /\
  Meta.Deserialize recv (b ++ post) = Meta.Deserialize recv b.
Proof.
  intros H. unfold Meta.Deserialize.
  destruct (Z.ltb_spec (len b) 8) as [H'|_]; [lia|].
  destruct (Z.ltb_spec (len (b ++ post)) 8) as [H'|_].
  { unfold len in *. rewrite length_app in H'. lia. }
  cbn [fst snd]. split; [reflexivity|].
  assert (H8 : length (slice b 0 8) = 8%nat)
    by (rewrite length_slice; unfold len in *; lia).
  split.
  - rewrite Meta_Serialize_wire. cbn [Freelist_page].
    rewrite to_uint64_int64 by (apply Uint64_range, H8).
    rewrite le64_Uint64 by exact H8.
    unfold slice. rewrite drop_0. reflexivity.
  - rewrite slice_app_l by (unfold len in *; lia). reflexivity.
Qed.

Lemma X4_metainfo_decode_encode_witness :
  snd (Meta.Deserialize NewMetainfo three_entries) = None /\
  Meta.Serialize (fst (Meta.Deserialize NewMetainfo three_entries))
    = take 8 three_entries /\
  Meta.Deserialize NewMetainfo (three_entries ++ [xff])
    = Meta.Deserialize NewMetainfo three_entries.
Proof.
  apply (X4_metainfo_decode_encode NewMetainfo three_entries [xff]).
  vm_compute. discriminate.
Defined.

(** ** Freelist.Equal *)

Lemma Flist_Equal_spec (fl o : Freelist) :
  Flist.Equal fl o = true <->
  Max fl = Max o /\ length (Released fl) = length (Released o) /\
  (forall x, In x (Released fl) -> In x (Released o)).
Proof.
  unfold Flist.Equal, len.
  destruct (Z.eqb_spec (Max fl) (Max o)) as [Hm|Hm]; cbn [negb orb].
  2: { split; [discriminate | intros (H & _); contradiction]. }
  destruct (Z.eqb_spec (Z.of_nat (length (Released fl)))
              (Z.of_nat (length (Released o)))) as [Hl|Hl]; cbn [negb].
  2: { split; [discriminate | intros (_ & H & _); lia]. }
  rewrite forallb_forall. split.
  - intros H. split; [exact Hm|]. split; [lia|].
    intros x Hx. apply H, existsb_exists in Hx as (y & Hy & Hxy).
    apply Z.eqb_eq in Hxy. subst y. exact Hy.
  - intros (_ & _ & H) x Hx. apply existsb_exists.
    exists x. split; [apply H, Hx | apply Z.eqb_refl].
Qed.

(** X5. [Freelist.Equal] holds exactly when the two [Max] are equal, the
    two released lists have the same length and every entry of the
    receiver's list occurs in the other's.  It is reflexive and not
    symmetric: entries of the other list that the receiver lacks go
    unnoticed when the receiver repeats an entry. *)
Theorem X5_freelist_equal_one_sided :
  (forall fl o,
     Flist.Equal fl o = true <->
     Max fl = Max o /\ len (Released fl) = len (Released o) /\
     (forall x, In x (Released fl) -> In x (Released o))) /\
  (forall fl, Flist.Equal fl fl = true) /\
  (exists fl o, Flist.Equal fl o = true /\ Flist.Equal o fl = false).
Proof.
  split; [|split].
  - intros fl o. rewrite Flist_Equal_spec. unfold len.
    split; intros (H1 & H2 & H3); (split; [exact H1|split; [lia|exact H3]]).
  - intros fl. apply Flist_Equal_spec. auto.
  - exists {| Max := 9; Released := [3; 3] |}, {| Max := 9; Released := [3; 4] |}.
    split; reflexivity.
Qed.

(** X6. When the receiver's released list has no duplicates (the
    caller's contract), [Freelist.Equal] holds exactly when the two [Max]
    are equal and the two lists are permutations of each other. *)
Theorem X6_freelist_equal_nodup (fl o : Freelist) :
  NoDup (Released fl) ->
  (Flist.Equal fl o = true <->
   Max fl = Max o /\ Permutation (Released fl) (Released o)).
Proof.
  intros Hnd. rewrite Flist_Equal_spec. split.
  - intros (Hm & Hl & Hin). split; [exact Hm|].
    apply submseteq_length_Permutation; [|lia].
    apply NoDup_submseteq; [exact Hnd|].
    intros x Hx. apply list_elem_of_In, Hin, list_elem_of_In, Hx.
  - intros (Hm & Hp). split; [exact Hm|]. split.
    + apply Permutation_length, Hp.
    + intros x Hx. apply list_elem_of_In.
      rewrite <- Hp. apply list_elem_of_In, Hx.
Qed.

Lemma X6_freelist_equal_nodup_witness :
  Flist.Equal {| Max := 9; Released := [3; 4; 7] |}
              {| Max := 9; Released := [7; 3; 4] |} = true <->
  9 = 9 /\ Permutation [3; 4; 7] [7; 3; 4].
Proof.
  apply (X6_freelist_equal_nodup {| Max := 9; Released := [3; 4; 7] |}
           {| Max := 9; Released := [7; 3; 4] |}).
  cbn [Released]. apply NoDup_cons. split; [|apply NoDup_cons; split;
    [|apply NoDup_cons; split; [|apply NoDup_nil; exact I]]];
    rewrite ?list_elem_of_In; cbn [In]; lia.
Defined.

(** ** Freelist: batches of calls *)

Lemma Next_snoc (m : PageNum) (l : list PageNum) (x : PageNum) :
  Flist.Next {| Max := m; Released := l ++ [x] |}
  = (x, {| Max := m; Released := l |}).
Proof.
  unfold Flist.Next. cbn [Released Max].
  unfold len. rewrite length_app. cbn [length].
  destruct (Z.eqb_spec (Z.of_nat (length l + 1)) 0) as [H|_]; [lia|].
  replace (length l + 1 - 1)%nat with (length l) by lia.
  rewrite list_lookup_middle by reflexivity. rewrite take_app_length.
  reflexivity.
Qed.

Lemma Next_times_S (n : nat) (fl : Freelist) :
  Next_times (S n) fl =
    (fst (Flist.Next fl) :: fst (Next_times n (snd (Flist.Next fl))),
     snd (Next_times n (snd (Flist.Next fl)))).
Proof.
  cbn [Next_times]. destruct (Flist.Next fl) as [num fl1]. cbn [fst snd].
  destruct (Next_times n fl1) as [nums fl2]. reflexivity.
Qed.

Lemma Next_times_add (n k : nat) (fl : Freelist) :
  Next_times (n + k) fl =
    (fst (Next_times n fl) ++ fst (Next_times k (snd (Next_times n fl))),
     snd (Next_times k (snd (Next_times n fl)))).
Proof.
  revert fl. induction n as [|n IH]; intros fl.
  - cbn [Nat.add Next_times fst snd app].
    destruct (Next_times k fl); reflexivity.
  - cbn [Nat.add]. rewrite !Next_times_S, IH. reflexivity.
Qed.

Lemma Next_times_drain (m : PageNum) (l : list PageNum) :
  Next_times (length l) {| Max := m; Released := l |}
  = (rev l, {| Max := m; Released := [] |}).
Proof.
  induction l as [|x l IH] using rev_ind.
  - reflexivity.
  - rewrite length_app. cbn [length]. rewrite Nat.add_1_r.
    rewrite Next_times_S, Next_snoc. cbn [fst snd]. rewrite IH.
    cbn [fst snd]. rewrite rev_unit. reflexivity.
Qed.

(** X7. Reuse before growth, most recent release first. For a Freelist
    with released list [l], [length l + k] calls of [Next] hand out the
    entries of [l] from the last to the first and then the [k] numbers
    [Max, Max + 1, ..., Max + k - 1]; they leave nothing released and
    [Max + k] (as long as [Max + k] is an [int64]). *)
Theorem X7_next_drains_then_grows (fl : Freelist) (k : nat) :
  min_int64 <= Max fl -> Max fl + Z.of_nat k <= max_int64 ->
  Next_times (length (Released fl) + k) fl =
    (rev (Released fl) ++ ((fun i : nat => Max fl + Z.of_nat i) <$> seq 0 k),
     {| Max := Max fl + Z.of_nat k; Released := [] |}).
Proof.
  intros Hlo Hhi. destruct fl as [m l]. cbn [Max Released] in *.
  rewrite Next_times_add, Next_times_drain. cbn [fst snd].
  rewrite Next_times_grow by (cbn [Max Released]; trivial).
  reflexivity.
Qed.

Lemma X7_next_drains_then_grows_witness :
  Next_times (2 + 3) {| Max := 9; Released := [4; 7] |}
  = ([7; 4; 9; 10; 11], {| Max := 12; Released := [] |}).
Proof.
  apply (X7_next_drains_then_grows {| Max := 9; Released := [4; 7] |} 3);
    vm_compute; discriminate.
Defined.

(** X8. A batch of [Release] calls appends to the released list the
    numbers above the boundary, in the order of the calls, drops the
    others, and leaves [Max] as it was; a number released twice is in
    the list twice. *)
Theorem X8_release_batch (fl : Freelist) (l : list PageNum) :
  foldl Flist.Release fl l =
    {| Max := Max fl;
       Released := Released fl
                   ++ List.filter (fun num => negb (num <=? BeginFreeBlocks)) l |}.
Proof.
  revert fl. induction l as [|x l IH]; intros fl.
  - cbn [foldl List.filter]. rewrite app_nil_r. destruct fl; reflexivity.
  - cbn [foldl List.filter]. rewrite IH. unfold Flist.Release.
    destruct (x <=? BeginFreeBlocks); cbn [negb Max Released].
    + reflexivity.
    + rewrite <- app_assoc. reflexivity.
Qed.

(** X9. Releases are undone in reverse: after [Release] of the numbers
    of [l], all above the boundary, [length l] calls of [Next] return
    them from the last to the first and leave the Freelist exactly as it
    was before the releases, whatever it held. *)
Theorem X9_release_then_next_restores (fl : Freelist) (l : list PageNum) :
  Forall (fun num => BeginFreeBlocks < num) l ->
  Next_times (length l) (foldl Flist.Release fl l) = (rev l, fl).
Proof.
  induction l as [|x l IH] using rev_ind; intros Hl.
  - reflexivity.
  - apply Forall_app in Hl as [Hl Hx]. apply Forall_inv in Hx.
    rewrite length_app. cbn [length]. rewrite Nat.add_1_r.
    rewrite foldl_snoc, Next_times_S, Next_Release by exact Hx.
    cbn [fst snd]. rewrite IH by exact Hl. cbn [fst snd].
    rewrite rev_unit. reflexivity.
Qed.

Lemma X9_release_then_next_restores_witness :
  Next_times 3 (foldl Flist.Release {| Max := 9; Released := [4] |} [5; 8; 5])
  = ([5; 8; 5], {| Max := 9; Released := [4] |}).
Proof.
  apply (X9_release_then_next_restores {| Max := 9; Released := [4] |} [5; 8; 5]).
  repeat constructor.
Defined.

Lemma run_Max_bounds (calls : list call) (fl : Freelist) :
  min_int64 <= Max fl -> Max fl + len calls <= max_int64 ->
  Max fl <= Max (foldl do_call fl calls) <= Max fl + len calls.
Proof.
  revert fl. induction calls as [|c calls IH]; intros fl Hlo Hhi.
  - cbn [foldl]. unfold len. cbn [length]. lia.
  - cbn [foldl]. unfold len in *. cbn [length] in *.
    assert (Hc : Max fl <= Max (do_call fl c) <= Max fl + 1).
    { destruct c as [|num]; cbn [do_call].
      - unfold Flist.Next. destruct (len (Released fl) =? 0);
          cbn [snd Max]; [|lia].
        rewrite to_int64_id by (unfold in_int64; lia). lia.
      - unfold Flist.Release. destruct (num <=? BeginFreeBlocks);
          cbn [Max]; lia. }
    specialize (IH (do_call fl c)). lia.
Qed.

(** X10. The control pages are never handed out. After any sequence of
    [Next] and [Release] calls on a fresh Freelist (short enough for
    [Max] to stay an [int64]), [Max] lies between the boundary and the
    boundary plus the number of calls, and the next call of [Next]
    returns a number at or above the boundary, so neither page 0 (the
    Metainfo) nor page 1 (the Freelist). *)
Theorem X10_next_never_reserved (calls : list call) :
  BeginFreeBlocks + len calls <= max_int64 ->
  BeginFreeBlocks <= Max (run calls) <= BeginFreeBlocks + len calls /\
  BeginFreeBlocks <= fst (Flist.Next (run calls)) /\
  fst (Flist.Next (run calls)) <> DefaultMetaPage /\
  fst (Flist.Next (run calls)) <> DefaultFlistPage.
Proof.
  intros Hlen.
  assert (Hmax : BeginFreeBlocks <= Max (run calls) <= BeginFreeBlocks + len calls).
  { apply (run_Max_bounds calls NewFreelist); [|exact Hlen].
    vm_compute. discriminate. }
  assert (Hab : above_boundary (run calls))
    by (apply above_boundary_run; constructor).
  assert (Hn : BeginFreeBlocks <= fst (Flist.Next (run calls))).
  { unfold above_boundary in Hab.
    destruct (run calls) as [m l]. cbn [Max Released] in *.
    destruct l as [|x l] using rev_ind.
    - change (fst (Flist.Next {| Max := m; Released := [] |})) with m. lia.
    - rewrite Next_snoc. cbn [fst].
      apply Forall_app in Hab as [_ Hx]. apply Forall_inv in Hx. lia. }
  split; [exact Hmax|]. split; [exact Hn|].
  unfold BeginFreeBlocks, DefaultFlistPage, DefaultMetaPage in *. lia.
Qed.

Lemma X10_next_never_reserved_witness :
  BeginFreeBlocks <= fst (Flist.Next (run [CallNext; CallRelease 2; CallRelease 1;
                                          CallNext; CallRelease 3])).
Proof.
  apply (X10_next_never_reserved
           [CallNext; CallRelease 2; CallRelease 1; CallNext; CallRelease 3]).
  vm_compute. discriminate.
Defined.

(** ** Page: one write after another *)

Lemma copy_copy (d b1 b2 : list byte) :
  copy (copy d b1) b2 = copy d (b2 ++ drop (length b2) b1).
Proof.
  revert b1 b2. induction d as [|x d IH]; intros b1 b2.
  - reflexivity.
  - destruct b1 as [|y b1].
    + rewrite drop_nil, app_nil_r. reflexivity.
    + destruct b2 as [|z b2].
      * reflexivity.
      * cbn [copy length drop app]. f_equal. apply IH.
Qed.

(** X11. Two writes on a page are one write of the second input followed
    by what the first input had beyond its length: a shorter second
    write leaves the tail of the first in the buffer, a second write at
    least as long hides the first altogether (nothing is left to
    append). *)
Theorem X11_page_write_twice (pg : Page) (b1 b2 : list byte) :
  Page_Write (Page_Write pg b1) b2
  = Page_Write pg (b2 ++ drop (length b2) b1).
Proof.
  unfold Page_Write. cbn [Num Data]. rewrite copy_copy. reflexivity.
Qed.

(** ** Pager: reading and writing pages *)

Lemma length_overlay (f : File) (o : nat) (b : list byte) :
  length (overlay f o b) = Nat.max (length f) (o + length b).
Proof.
  unfold overlay.
  rewrite !length_app, length_take, length_replicate, length_drop. lia.
Qed.


(** [Read], resolved: the page is there or the file ends before it. *)
Lemma Read_cases (num : PageNum) (pgr : Pager) :
  0 < psize pgr -> 0 <= num * psize pgr <= max_int64 ->
  Pgr.Read num pgr =
    if (num + 1) * psize pgr <=? len (f pgr) then
      Ok {| Num := num;
            Data := slice (f pgr) (Z.to_nat (num * psize pgr))
                      (Z.to_nat (num * psize pgr) + Z.to_nat (psize pgr)) |} pgr
    else Fail (Errorf "pager/read" [num] EOF) pgr.
Proof.
  intros Hps Hoff.
  set (ps := Z.to_nat (psize pgr)). set (o := Z.to_nat (num * psize pgr)).
  assert (Hgot : length (take ps (drop o (f pgr)))
                 = Nat.min ps (length (f pgr) - o))
    by (rewrite length_take, length_drop; reflexivity).
  destruct (Z.leb_spec ((num + 1) * psize pgr) (len (f pgr))) as [H|H].
  - apply Read_eq; try assumption; fold ps o.
    + unfold slice. rewrite length_take, length_drop. unfold len in H. lia.
    + unfold slice. f_equal. lia.
  - unfold Pgr.Read, bind, get, wrap, Pgr.f_ReadAt, ret.
    rewrite Alloc_eq by lia. cbn [WithNum snd Num Data].
    rewrite to_int64_id
      by (unfold in_int64, min_int64, max_int64 in *; lia).
    unfold make_bytes. rewrite length_replicate. fold ps o.
    unfold ReadAt. fold o.
    destruct (Z.ltb_spec (num * psize pgr) 0) as [H'|_]; [lia|].
    destruct (Z.eqb_spec (Z.of_nat ps) 0) as [H'|_]; [lia|].
    unfold len at 1. rewrite Hgot.
    destruct (Z.ltb_spec (Z.of_nat (Nat.min ps (length (f pgr) - o)))
                (Z.of_nat ps)) as [_|H']; [reflexivity|].
    unfold len in H. lia.
Qed.

(** X12. [Read(num)], for a page number whose offset is a non-negative
    [int64], returns the [psize] bytes at [num * psize] when the file
    has them all and fails with [EOF] when the file ends before the end
    of the page; the pager is the same after the call in both cases. *)
Theorem X12_read_page_or_eof (num : PageNum) (pgr : Pager) :
  0 < psize pgr -> 0 <= num * psize pgr <= max_int64 ->
  (len (f pgr) < (num + 1) * psize pgr /\
   Pgr.Read num pgr = Fail (Errorf "pager/read" [num] EOF) pgr) \/
  ((num + 1) * psize pgr <= len (f pgr) /\
   Pgr.Read num pgr =
     Ok {| Num := num;
           Data := slice (f pgr) (Z.to_nat (num * psize pgr))
                     (Z.to_nat (num * psize pgr) + Z.to_nat (psize pgr)) |} pgr).
Proof.
  intros Hps Hoff. rewrite Read_cases by assumption.
  destruct (Z.leb_spec ((num + 1) * psize pgr) (len (f pgr))) as [H|H].
  - right. split; [exact H | reflexivity].
  - left. split; [exact H | reflexivity].
Qed.

Lemma X12_read_page_or_eof_witness :
  (len (f small_pager) < (3 + 1) * psize small_pager /\
   Pgr.Read 3 small_pager = Fail (Errorf "pager/read" [3] EOF) small_pager) \/
  ((3 + 1) * psize small_pager <= len (f small_pager) /\
   Pgr.Read 3 small_pager =
     Ok {| Num := 3;
           Data := slice (f small_pager) (Z.to_nat (3 * psize small_pager))
                     (Z.to_nat (3 * psize small_pager)
                      + Z.to_nat (psize small_pager)) |} small_pager).
Proof.
  apply (X12_read_page_or_eof 3 small_pager).
  - vm_compute. reflexivity.
  - split; vm_compute; discriminate.
Defined.



(** X14. A page written is the page read: for a page of [psize] bytes
    whose offset is a non-negative [int64], [Write(pg)] returns no error
    and [Read(pg.Num)] then returns [pg]; the write changes the file
    only, which afterwards has [max (len f) ((Num + 1) * psize)]
    bytes. *)
Theorem X14_write_then_read (pg : Page) (pgr : Pager) :
  0 < psize pgr -> 0 <= Num pg * psize pgr <= max_int64 ->
  len (Data pg) = psize pgr ->
  exists pgr',
    Pgr.Write pg pgr = Ok tt pgr' /\
    Pgr.Read (Num pg) pgr' = Ok pg pgr' /\
    psize pgr' = psize pgr /\ meta pgr' = meta pgr /\ flist pgr' = flist pgr /\
    len (f pgr') = Z.max (len (f pgr)) ((Num pg + 1) * psize pgr).
Proof.
  intros Hps Hoff Hd.
  exists (set_f pgr (overlay (f pgr) (Z.to_nat (Num pg * psize pgr)) (Data pg))).
  split; [apply Write_eq; [assumption|lia]|].
  assert (Hld : length (Data pg) = Z.to_nat (psize pgr))
    by (unfold len in Hd; lia).
  split.
  - replace pg with {| Num := Num pg; Data := Data pg |} at 4
      by (destruct pg; reflexivity).
    apply Read_eq; cbn [psize f set_f]; try assumption.
    rewrite <- Hld. apply read_overlay_same.
  - cbn [psize meta flist f set_f]. repeat (split; [reflexivity|]).
    unfold len. rewrite length_overlay. lia.
Qed.

(** A page of 32 bytes for page 5. *)
Lemma X14_write_then_read_witness :
  exists pgr',
    Pgr.Write {| Num := 5; Data := replicate 32 x2a |} small_pager = Ok tt pgr' /\
    Pgr.Read 5 pgr' = Ok {| Num := 5; Data := replicate 32 x2a |} pgr' /\
    psize pgr' = 32 /\ meta pgr' = meta small_pager /\
    flist pgr' = flist small_pager /\
    len (f pgr') = Z.max (len (f small_pager)) ((5 + 1) * 32).
Proof.
  apply (X14_write_then_read {| Num := 5; Data := replicate 32 x2a |} small_pager).
  - vm_compute. reflexivity.
  - split; vm_compute; discriminate.
  - vm_compute. reflexivity.
Defined.



(** X16. A page whose offset [Num * psize] is negative (a negative page
    number) is neither written nor read: [Write] and [Read] fail with
    the file's negative-offset error and leave the pager as it was. *)
Theorem X16_negative_offset_refused (pg : Page) (pgr : Pager) :
  0 <= psize pgr -> min_int64 <= Num pg * psize pgr < 0 ->
  Pgr.Write pg pgr
    = Fail (Errorf "pager/write" [Num pg; len (Data pg)] ErrNegativeOffset) pgr /\
  Pgr.Read (Num pg) pgr
    = Fail (Errorf "pager/read" [Num pg] ErrNegativeOffset) pgr.
Proof.
  intros Hps Hoff.
  assert (Hid : to_int64 (Num pg * psize pgr) = Num pg * psize pgr)
    by (apply to_int64_id; unfold in_int64, min_int64, max_int64 in *; lia).
  split.
  - unfold Pgr.Write, bind, get, wrap, Pgr.f_WriteAt. rewrite Hid.
    unfold WriteAt.
    destruct (Z.ltb_spec (Num pg * psize pgr) 0) as [_|H]; [reflexivity|lia].
  - unfold Pgr.Read, bind, get, wrap, Pgr.f_ReadAt, ret.
    rewrite Alloc_eq by exact Hps. cbn [WithNum snd Num Data].
    rewrite Hid. unfold ReadAt.
    destruct (Z.ltb_spec (Num pg * psize pgr) 0) as [_|H]; [reflexivity|lia].
Qed.

Lemma X16_negative_offset_refused_witness :
  Pgr.Write {| Num := -2; Data := replicate 4 x09 |} two_pages
    = Fail (Errorf "pager/write" [-2; 4] ErrNegativeOffset) two_pages /\
  Pgr.Read (-2) two_pages
    = Fail (Errorf "pager/read" [-2] ErrNegativeOffset) two_pages.
Proof.
  apply (X16_negative_offset_refused {| Num := -2; Data := replicate 4 x09 |}
           two_pages).
  - vm_compute. discriminate.
  - split; vm_compute; [discriminate | reflexivity].
Defined.

(** ** Pager: Flush at its edges *)




(** X19. A flush can stop half way: when the offset of the Freelist's
    page is negative, [Flush] has written the Metainfo's page at offset
    0 by the time the write of the Freelist's page fails, and it returns
    that failure with the file changed. *)
Theorem X19_flush_stops_half_way (pgr : Pager) :
  0 < psize pgr -> psize pgr <= max_int64 ->
  to_int64 (Freelist_page (meta pgr) * psize pgr) < 0 ->
  Pgr.Flush pgr =
    Fail (Errorf "pager: flush freelist" []
            (Errorf "pager/write" [Freelist_page (meta pgr); psize pgr]
               ErrNegativeOffset))
         (set_f pgr (overlay (f pgr) 0
                       (page_of (Z.to_nat (psize pgr))
                          (Meta.Serialize (meta pgr))))).
Proof.
  intros Hps Hmax Hneg. unfold Pgr.Flush, bind, get, wrap.
  rewrite Alloc_eq by lia. cbn [WithNum snd Num Data].
  fold (page_of (Z.to_nat (psize pgr)) (Meta.Serialize (meta pgr))).
  rewrite Write_eq; cbn [Num Data].
  2: { change (DefaultMetaPage * psize pgr) with 0. unfold max_int64. lia. }
  2: { unfold len. rewrite length_page_of. lia. }
  change (DefaultMetaPage * psize pgr) with 0. change (Z.to_nat 0) with 0%nat.
  rewrite Alloc_eq by (cbn [psize set_f]; lia).
  cbn [psize meta flist f set_f WithNum snd Num Data].
  fold (page_of (Z.to_nat (psize pgr)) (Flist.Serialize (flist pgr))).
  unfold Pgr.Write, bind, get, wrap, Pgr.f_WriteAt, WriteAt.
  cbn [Num Data psize f set_f].
  destruct (Z.ltb_spec (to_int64 (Freelist_page (meta pgr) * psize pgr)) 0)
    as [_|H]; [|lia].
  unfold len. rewrite length_page_of, Z2Nat.id by lia. reflexivity.
Qed.

Lemma X19_flush_stops_half_way_witness :
  Pgr.Flush negative_pager =
    Fail (Errorf "pager: flush freelist" []
            (Errorf "pager/write" [-1; 32] ErrNegativeOffset))
         (set_f negative_pager
            (overlay [] 0 (page_of 32 (Meta.Serialize {| Freelist_page := -1 |})))).
Proof.
  apply (X19_flush_stops_half_way negative_pager).
  - vm_compute. reflexivity.
  - vm_compute. discriminate.
  - vm_compute. reflexivity.
Defined.

(** A write of the bytes that are there already changes nothing. *)
Lemma overlay_same (f : File) (o : nat) (b : list byte) :
  take (length b) (drop o f) = b -> (o + length b <= length f)%nat ->
  overlay f o b = f.
Proof.
  intros Hb Hlen. unfold overlay.
  replace (o - length f)%nat with 0%nat by lia. cbn [replicate app].
  rewrite <- Hb at 1. rewrite <- (drop_drop f (length b) o).
  rewrite take_drop. apply take_drop.
Qed.

Lemma length_flushed (pgr : Pager) :
  (Z.to_nat (Freelist_page (meta pgr) * psize pgr) + Z.to_nat (psize pgr)
   <= length (flushed pgr))%nat.
Proof.
  unfold flushed. rewrite length_overlay, length_page_of. lia.
Qed.

Lemma flushed_again (pgr : Pager) :
  0 < psize pgr ->
  0 < Freelist_page (meta pgr) ->
  flushed (set_f pgr (flushed pgr)) = flushed pgr.
Proof.
  intros Hps HF. unfold flushed at 1. cbn [psize meta flist f set_f].
  set (ps := Z.to_nat (psize pgr)).
  assert (Hge : (ps <= Z.to_nat (Freelist_page (meta pgr) * psize pgr))%nat)
    by (unfold ps; apply Z2Nat.inj_le; nia).
  pose proof (length_flushed pgr) as Hlen. fold ps in Hlen.
  rewrite (overlay_same (flushed pgr) 0).
  - apply overlay_same; rewrite length_page_of; [|exact Hlen].
    apply flushed_flist_page.
  - rewrite length_page_of. apply flushed_meta_page, Hge.
  - rewrite length_page_of. lia.
Qed.

(** X20. [Flush] is idempotent: a second flush right after a first one
    (page size positive, the Freelist on a page above 0, its offset an
    [int64]) returns no error and leaves the pager, file included,
    exactly as the first left it. *)
Theorem X20_flush_twice (pgr : Pager) :
  0 < psize pgr ->
  0 < Freelist_page (meta pgr) ->
  Freelist_page (meta pgr) * psize pgr <= max_int64 ->
  exists pgr1,
    Pgr.Flush pgr = Ok tt pgr1 /\ Pgr.Flush pgr1 = Ok tt pgr1.
Proof.
  intros Hps HF Hoff.
  exists (set_f pgr (flushed pgr)).
  split; [apply Flush_eq; [assumption|nia]|].
  rewrite Flush_eq by (cbn [psize meta set_f]; first [assumption | nia]).
  rewrite flushed_again by assumption. reflexivity.
Qed.

Lemma X20_flush_twice_witness :
  exists pgr1,
    Pgr.Flush small_pager = Ok tt pgr1 /\ Pgr.Flush pgr1 = Ok tt pgr1.
Proof.
  apply (X20_flush_twice small_pager).
  - vm_compute. reflexivity.
  - vm_compute. reflexivity.
  - vm_compute. discriminate.
Defined.





(** ** Pager: Recovery and NewPager at their edges *)

Lemma Recovery_short_file (pgr : Pager) :
  0 < psize pgr -> psize pgr <= max_int64 -> len (f pgr) < psize pgr ->
  Pgr.Recovery pgr
  = Fail (Errorf "pager: recover metainfo" [] (Errorf "pager/read" [0] EOF)) pgr.
Proof.
  intros Hps Hmax Hlen. unfold Pgr.Recovery, bind, get, wrap.
  rewrite Read_cases
    by (change (DefaultMetaPage * psize pgr) with 0; unfold max_int64; lia).
  change ((DefaultMetaPage + 1) * psize pgr) with (1 * psize pgr).
  destruct (Z.leb_spec (1 * psize pgr) (len (f pgr))) as [H|_]; [lia|].
  reflexivity.
Qed.

(** X22. On a file shorter than one page (an empty file, say)
    [Recovery] fails with [EOF] on the read of page 0 and leaves the
    pager, Metainfo and Freelist included, as it was. *)
Theorem X22_recovery_short_file (pgr : Pager) :
  0 < psize pgr -> psize pgr <= max_int64 -> len (f pgr) < psize pgr ->
  Pgr.Recovery pgr
  = Fail (Errorf "pager: recover metainfo" [] (Errorf "pager/read" [0] EOF)) pgr.
Proof. apply Recovery_short_file. Qed.

Lemma X22_recovery_short_file_witness :
  Pgr.Recovery small_pager
  = Fail (Errorf "pager: recover metainfo" [] (Errorf "pager/read" [0] EOF))
         small_pager.
Proof.
  apply (X22_recovery_short_file small_pager).
  - vm_compute. reflexivity.
  - vm_compute. discriminate.
  - vm_compute. reflexivity.
Defined.

Lemma Read_same_pager (num : PageNum) (pgr : Pager) :
  match Pgr.Read num pgr with
  | Ok _ pgr' | Fail _ pgr' => pgr' = pgr
  | Panic => True
  end.
Proof.
  unfold Pgr.Read, bind, get, wrap, Pgr.f_ReadAt, ret, Pgr.Alloc.
  destruct (NewPage 0 (psize pgr)); [|exact I].
  destruct (ReadAt _ _ _); reflexivity.
Qed.

(** X23. In every outcome [Recovery] leaves the path, the file and the
    page size of the pager as they were: it reads, and writes the two
    records only. *)
Theorem X23_recovery_keeps_file (pgr : Pager) :
  match Pgr.Recovery pgr with
  | Ok _ pgr' | Fail _ pgr' =>
      path pgr' = path pgr /\ f pgr' = f pgr /\ psize pgr' = psize pgr
  | Panic => True
  end.
Proof.
  unfold Pgr.Recovery, bind, get, wrap.
  pose proof (Read_same_pager DefaultMetaPage pgr) as H0.
  destruct (Pgr.Read DefaultMetaPage pgr) as [pg0 p0|e0 p0|];
    [subst p0| subst p0; auto | exact I].
  unfold Pgr.meta_Deserialize.
  destruct (Meta.Deserialize (meta pgr) (Data pg0)) as [m [e|]]; [auto|].
  cbn [meta set_meta].
  pose proof (Read_same_pager (Freelist_page m) (set_meta pgr m)) as H1.
  destruct (Pgr.Read (Freelist_page m) (set_meta pgr m)) as [pg1 p1|e1 p1|];
    [subst p1| subst p1; auto | exact I].
  unfold Pgr.flist_Deserialize.
  destruct (Flist.Deserialize _ _) as [fl [e|]]; auto.
Qed.



(** X25. A store made with a page size below 12 cannot be opened again:
    for a page size from 0 to 11 [NewPager] on a path with no entry
    returns no error, and [NewPager] on the file it leaves fails with
    [ErrWrongBytes] (the page is too short for the 8 bytes of the
    Metainfo or for the 12 bytes of the Freelist's header). *)
Theorem X25_newpager_small_pages (p : string) (size : Z) :
  0 <= size < 12 ->
  exists pgr,
    Pgr.NewPager p None size = Ok tt pgr /\
    exists e pgr',
      Pgr.NewPager p (Some (f pgr)) size = Fail e pgr' /\
      Is_ErrWrongBytes e = true.
Proof.
  intros Hsize.
  assert (Hc : size = 0 \/ size = 1 \/ size = 2 \/ size = 3 \/ size = 4 \/
               size = 5 \/ size = 6 \/ size = 7 \/ size = 8 \/ size = 9 \/
               size = 10 \/ size = 11) by lia.
  destruct Hc as [->|[->|[->|[->|[->|[->|[->|[->|[->|[->|[->| ->]]]]]]]]]]];
    (eexists; split; [vm_compute; reflexivity|];
     eexists; eexists; split; [vm_compute; reflexivity | reflexivity]).
Qed.

Lemma X25_newpager_small_pages_witness :
  exists pgr,
    Pgr.NewPager "test_data" None 8 = Ok tt pgr /\
    exists e pgr',
      Pgr.NewPager "test_data" (Some (f pgr)) 8 = Fail e pgr' /\
      Is_ErrWrongBytes e = true.
Proof.
  apply (X25_newpager_small_pages "test_data" 8).
  split; vm_compute; [discriminate | reflexivity].
Defined.

(** X26. [NewPager] with a negative page size panics, on a new path and
    on an existing file alike (the buffer of the first page cannot be
    made). *)
Theorem X26_newpager_negative_size (p : string) (disk : option File)
    (size : Z) :
  size < 0 -> Pgr.NewPager p disk size = Panic.
Proof.
  intros H. unfold Pgr.NewPager, wrap.
  destruct disk as [f0|];
    unfold Pgr.Recovery, Pgr.Flush, Pgr.Read, bind, wrap, Pgr.Alloc, NewPage;
    cbn [psize];
    (destruct (Z.ltb_spec size 0) as [_|H']; [reflexivity|lia]).
Qed.

Lemma X26_newpager_negative_size_witness :
  Pgr.NewPager "test_data" None (-1) = Panic.
Proof.
  apply (X26_newpager_negative_size "test_data" None (-1)).
  vm_compute. reflexivity.
Defined.


